(** * Team task dashboard: the task collection engine

    A shallow embedding of [team_task_dashboard_react_single_file.jsx]:
    the task store ([upsertTask], [TaskForm.save]), the CSV codec
    ([exportCSV], [importCSV], [splitCSVLine]) and the derived view
    ([visibleTasks]).

    Conventions.
    - A JavaScript string is the sequence of its code units.  The model
      covers the code units below 256: a [string] of this file is that
      sequence, one [ascii] per code unit.
    - A JavaScript object is a finite map from property names to values;
      the only values the engine handles are strings and [undefined].
    - [uid()] and [now()] read the outside world; the n-th call of each
      returns what an oracle says ([uid_at n], [now_at n]).
    - [alert] appends its message to the log of the state. *)

From Stdlib Require Import Ascii String ZArith Lia.
From stdpp Require Import base gmap strings list sorting.

Local Open Scope string_scope.

(* ================================================================== *)
(** ** Characters and strings *)

Module Js.

Definition dquote : ascii := "034"%char.
Definition comma : ascii := ","%char.
Definition backslash : ascii := "\"%char.
Definition LF : ascii := "010"%char.
Definition CR : ascii := "013"%char.

Definition code (c : ascii) : N := N_of_ascii c.

Definition is_char (a b : ascii) : bool := Ascii.eqb a b.

(** [cur += ch] *)
Definition push (cur : string) (ch : ascii) : string := cur +:+ String ch "".

(** The one-character string made of a double quote, and the text of an
    empty string literal (two double quotes). *)
Definition quote_str : string := String dquote "".
Definition empty_literal : string := String dquote (String dquote "").

(** White space and line terminators of ECMAScript among the code units
    below 256: TAB, LF, VT, FF, CR, SP, NBSP. *)
Definition is_white (c : ascii) : bool :=
  let n := code c in
  ((9 <=? n) && (n <=? 13) || (n =? 32) || (n =? 160))%N.

(** [String.prototype.trim] *)
Fixpoint trimStart (s : string) : string :=
  match s with
  | "" => ""
  | String c s' => if is_white c then trimStart s' else s
  end.

Fixpoint trimEnd (s : string) : string :=
  match s with
  | "" => ""
  | String c s' =>
      match trimEnd s' with
      | "" => if is_white c then "" else String c ""
      | r => String c r
      end
  end.

Definition trim (s : string) : string := trimEnd (trimStart s).

(** [String.prototype.toLowerCase] on code units below 256: A-Z and the
    Latin-1 capitals U+00C0..U+00DE (U+00D7, the multiplication sign,
    apart) move up by 32. *)
Definition lower_char (c : ascii) : ascii :=
  let n := code c in
  if ((65 <=? n) && (n <=? 90) || (192 <=? n) && (n <=? 222) && negb (n =? 215))%N
  then ascii_of_N (n + 32) else c.

Fixpoint toLowerCase (s : string) : string :=
  match s with
  | "" => ""
  | String c s' => String (lower_char c) (toLowerCase s')
  end.

(** [String.prototype.includes] *)
Fixpoint includes (s q : string) : bool :=
  String.prefix q s ||
  match s with
  | "" => false
  | String _ s' => includes s' q
  end.

(** [a > b] on strings: code unit by code unit, a proper prefix is smaller. *)
Definition gt (a b : string) : bool :=
  match String.compare a b with Gt => true | _ => false end.

(** [Array.prototype.join] *)
Fixpoint join (sep : string) (l : list string) : string :=
  match l with
  | [] => ""
  | [x] => x
  | x :: l' => x +:+ sep +:+ join sep l'
  end.

(** [s.split(",")] *)
Fixpoint split_at (d : ascii) (cur : string) (s : string) : list string :=
  match s with
  | "" => [cur]
  | String c s' =>
      if is_char c d then cur :: split_at d "" s' else split_at d (push cur c) s'
  end.

Definition split_comma (s : string) : list string := split_at comma "" s.

(** [text.split(/\r?\n/)]: a line ends at LF, or at CR when LF follows. *)
Fixpoint split_newlines (cur : string) (s : string) : list string :=
  match s with
  | "" => [cur]
  | String c s' =>
      if is_char c LF then cur :: split_newlines "" s'
      else if is_char c CR then
        match s' with
        | String c' s'' =>
            if is_char c' LF then cur :: split_newlines "" s''
            else split_newlines (push cur c) s'
        | "" => split_newlines (push cur c) s'
        end
      else split_newlines (push cur c) s'
  end.

(** [h.replace] with the global double-quote pattern and the empty
    replacement: every double quote removed. *)
Fixpoint remove_quotes (s : string) : string :=
  match s with
  | "" => ""
  | String c s' => if is_char c dquote then remove_quotes s' else String c (remove_quotes s')
  end.

(** [.filter(Boolean)] on an array of strings keeps the non-empty ones. *)
Definition nonempty (s : string) : bool :=
  match s with "" => false | _ => true end.

End Js.

(* ================================================================== *)
(** ** Calls that may throw *)

Inductive exn : Type := SyntaxError | TypeError.

(** A call returns a value, throws, or falls outside what this model
    covers (see [JSON.parse]). *)
Inductive outcome (A : Type) : Type :=
  | Returns (a : A)
  | Throws (e : exn)
  | Unmodelled.
Arguments Returns {A} a.
Arguments Throws {A} e.
Arguments Unmodelled {A}.

Definition bind {A B : Type} (m : outcome A) (k : A -> outcome B) : outcome B :=
  match m with
  | Returns a => k a
  | Throws e => Throws e
  | Unmodelled => Unmodelled
  end.

Notation "'let*' x ':=' m 'in' k" := (bind m (fun x => k))
  (at level 10, x name, m at level 100, k at level 200).

(** [Array.prototype.map] and [filter] with a callback that may throw:
    left to right, the first exception ends the call. *)
Fixpoint traverse {A B : Type} (f : A -> outcome B) (l : list A) : outcome (list B) :=
  match l with
  | [] => Returns []
  | x :: l' =>
      let* y := f x in
      let* ys := traverse f l' in
      Returns (y :: ys)
  end.

Fixpoint filterM {A : Type} (f : A -> outcome bool) (l : list A) : outcome (list A) :=
  match l with
  | [] => Returns []
  | x :: l' =>
      let* b := f x in
      let* ys := filterM f l' in
      Returns (if b then x :: ys else ys)
  end.

(* ================================================================== *)
(** ** JSON text of a string *)

Module JSON.
Import Js.

Definition hex_digit (n : N) : ascii :=
  if (n <? 10)%N then ascii_of_N (48 + n) else ascii_of_N (87 + n).

(** [JSON.stringify] of a string, character by character (QuoteJSONString). *)
Definition escape_char (c : ascii) : string :=
  let n := code c in
  if is_char c dquote then String backslash quote_str
  else if is_char c backslash then "\\"
  else if (n =? 8)%N then "\b"
  else if (n =? 12)%N then "\f"
  else if (n =? 10)%N then "\n"
  else if (n =? 13)%N then "\r"
  else if (n =? 9)%N then "\t"
  else if (n <? 32)%N then "\u00" +:+ String (hex_digit (n / 16)) (String (hex_digit (n mod 16)) "")
  else String c "".

Fixpoint escape (s : string) : string :=
  match s with
  | "" => ""
  | String c s' => escape_char c +:+ escape s'
  end.

Definition stringify (s : string) : string :=
  String dquote (escape s +:+ quote_str).

(** [JSON.parse] of a text returns a value, throws a SyntaxError, or falls
    outside this model.  The model covers the texts that start with a
    double quote (string literals, the only texts [splitCSVLine] produces)
    whose value stays below code unit 256. *)
Definition pcons (c : ascii) (r : outcome string) : outcome string :=
  let* s := r in Returns (String c s).

Definition hex_value (c : ascii) : option N :=
  let n := code c in
  if ((48 <=? n) && (n <=? 57))%N then Some (n - 48)%N
  else if ((97 <=? n) && (n <=? 102))%N then Some (n - 87)%N
  else if ((65 <=? n) && (n <=? 70))%N then Some (n - 55)%N
  else None.

(** JSON white space: SP, TAB, LF, CR. *)
Definition is_json_space (c : ascii) : bool :=
  let n := code c in ((n =? 32) || (n =? 9) || (n =? 10) || (n =? 13))%N.

Fixpoint only_spaces (s : string) : bool :=
  match s with
  | "" => true
  | String c s' => is_json_space c && only_spaces s'
  end.

(** The characters after the opening quote of a string literal. *)
Fixpoint parse_chars (s : string) : outcome string :=
  match s with
  | "" => Throws SyntaxError
  | String c s1 =>
      if is_char c dquote then
        (if only_spaces s1 then Returns "" else Throws SyntaxError)
      else if is_char c backslash then
        match s1 with
        | "" => Throws SyntaxError
        | String e s2 =>
            if is_char e dquote then pcons dquote (parse_chars s2)
            else if is_char e backslash then pcons backslash (parse_chars s2)
            else if is_char e "/" then pcons "/" (parse_chars s2)
            else if is_char e "b" then pcons "008" (parse_chars s2)
            else if is_char e "f" then pcons "012" (parse_chars s2)
            else if is_char e "n" then pcons "010" (parse_chars s2)
            else if is_char e "r" then pcons "013" (parse_chars s2)
            else if is_char e "t" then pcons "009" (parse_chars s2)
            else if is_char e "u" then
              match s2 with
              | String h1 (String h2 (String h3 (String h4 s6))) =>
                  match hex_value h1, hex_value h2, hex_value h3, hex_value h4 with
                  | Some a, Some b, Some c', Some d =>
                      let n := (((a * 16 + b) * 16 + c') * 16 + d)%N in
                      if (n <? 256)%N then pcons (ascii_of_N n) (parse_chars s6)
                      else Unmodelled
                  | _, _, _, _ => Throws SyntaxError
                  end
              | _ => Throws SyntaxError
              end
            else Throws SyntaxError
        end
      else if (code c <? 32)%N then Throws SyntaxError
      else pcons c (parse_chars s1)
  end.

Definition parse (text : string) : outcome string :=
  match text with
  | String c s => if is_char c dquote then parse_chars s else Unmodelled
  | "" => Throws SyntaxError
  end.

End JSON.

(* ================================================================== *)
(** ** Objects *)

Inductive value : Type := VUndef | VStr (s : string).

#[global] Instance value_eq_dec : EqDecision value.
Proof. solve_decision. Defined.

(** An object: its own properties. *)
Abbreviation obj := (gmap string value).

Module Obj.

(** [o.k]: no property the engine reads is inherited from
    [Object.prototype], so a missing own property reads as [undefined]. *)
Definition get (o : obj) (k : string) : value := default VUndef (o !! k).

(** ToBoolean: [undefined] and the empty string are falsy. *)
Definition truthy (v : value) : bool :=
  match v with
  | VUndef => false
  | VStr s => Js.nonempty s
  end.

(** [v || d] with a string [d] *)
Definition or_else (v : value) (d : string) : string :=
  match v with
  | VStr (String c s) => String c s
  | _ => d
  end.

(** [{ ...a, ...b }]: the own properties of [b] over those of [a]. *)
Definition spread (a b : obj) : obj := b ∪ a.

(** [o[k] = v] on a plain object, [v] a string: the setter of
    [__proto__] ignores a value that is no object, any other name
    becomes an own property. *)
Definition assign (o : obj) (k : string) (v : value) : obj :=
  if decide (k = "__proto__") then o else <[k := v]> o.

End Obj.

(* ================================================================== *)
(** ** The component state and the task store *)

Record State : Type := mkState {
  tasks : list obj;
  showForm : bool;
  editing : option obj;
  alerts : list string;      (* messages shown by [alert], oldest first *)
  uid_calls : nat;           (* calls of [uid()] so far *)
  now_calls : nat            (* calls of [now()] so far *)
}.

Definition alert (msg : string) (st : State) : State :=
  mkState (tasks st) (showForm st) (editing st) (alerts st ++ [msg])
          (uid_calls st) (now_calls st).

(** [setShowForm(false); setEditing(null)] *)
Definition closeForm (st : State) : State :=
  mkState (tasks st) false None (alerts st) (uid_calls st) (now_calls st).

Section Store.

Variable uid_at : nat -> string.
Variable now_at : nat -> string.

(** [s.map((x) => (x.id === payload.id ? { ...x, ...payload, updatedAt: now() } : x))];
    [n] counts the calls of [now()]. *)
Fixpoint update_matching (payload : obj) (s : list obj) (n : nat) : list obj * nat :=
  match s with
  | [] => ([], n)
  | x :: s' =>
      if decide (Obj.get x "id" = Obj.get payload "id") then
        let x' := <["updatedAt" := VStr (now_at n)]> (Obj.spread x payload) in
        let '(r, n') := update_matching payload s' (S n) in
        (x' :: r, n')
      else
        let '(r, n') := update_matching payload s' n in
        (x :: r, n')
  end.

(** The record [{ id: uid(), createdAt: now(), updatedAt: now(), ...payload }]. *)
Definition new_task (payload : obj) (st : State) : obj :=
  Obj.spread
    (<["id" := VStr (uid_at (uid_calls st))]>
       (<["createdAt" := VStr (now_at (now_calls st))]>
          (<["updatedAt" := VStr (now_at (S (now_calls st)))]> ∅)))
    payload.

Definition upsertTask (payload : obj) (st : State) : State :=
  if negb (Obj.truthy (Obj.get payload "title")) then st
  else if negb (Obj.truthy (Obj.get payload "id")) then
    closeForm
      (mkState (new_task payload st :: tasks st) (showForm st) (editing st)
               (alerts st) (S (uid_calls st)) (S (S (now_calls st))))
  else
    let '(s', n') := update_matching payload (tasks st) (now_calls st) in
    closeForm
      (mkState s' (showForm st) (editing st) (alerts st) (uid_calls st) n').

(** [toggleDone] *)
Fixpoint toggle_matching (id : value) (s : list obj) (n : nat) : list obj * nat :=
  match s with
  | [] => ([], n)
  | t :: s' =>
      if decide (Obj.get t "id" = id) then
        let status' := if decide (Obj.get t "status" = VStr "Done") then "Todo" else "Done" in
        let t' := <["updatedAt" := VStr (now_at n)]> (<["status" := VStr status']> t) in
        let '(r, n') := toggle_matching id s' (S n) in
        (t' :: r, n')
      else
        let '(r, n') := toggle_matching id s' n in
        (t :: r, n')
  end.

Definition toggleDone (id : value) (st : State) : State :=
  let '(s', n') := toggle_matching id (tasks st) (now_calls st) in
  mkState s' (showForm st) (editing st) (alerts st) (uid_calls st) n'.

(** An object literal with the nine properties of the task model. *)
Definition sample_task (id title description assignee priority status dueDate
                        createdAt updatedAt : string) : obj :=
  <["id" := VStr id]>
    (<["title" := VStr title]>
       (<["description" := VStr description]>
          (<["assignee" := VStr assignee]>
             (<["priority" := VStr priority]>
                (<["status" := VStr status]>
                   (<["dueDate" := VStr dueDate]>
                      (<["createdAt" := VStr createdAt]>
                         (<["updatedAt" := VStr updatedAt]> ∅)))))))).

(** [sampleTasks()], called when nothing is stored: [u] and [n] count the
    calls of [uid()] and [now()] made before. *)
Definition sampleTasks (u n : nat) : list obj :=
  [ sample_task (uid_at u) "Track fuel consumption (Daff trucks)"
      "Gather monthly consumption per route" "Rami" "High" "In Progress" ""
      (now_at n) (now_at (S n));
    sample_task (uid_at (S u)) "SAP progress update"
      "Prepare slides for Manco" "Alice" "Medium" "Todo" ""
      (now_at (S (S n))) (now_at (S (S (S n)))) ].

End Store.

(* ================================================================== *)
(** ** The task form *)

Module TaskForm.

(** The props and the six [useState] cells of the form. *)
Record Form : Type := mkForm {
  initial : option obj;
  title : string;
  description : string;
  assignee : string;
  priority : string;
  status : string;
  dueDate : string
}.

(** [initial?.k] *)
Definition initial_get (initial : option obj) (k : string) : value :=
  match initial with
  | Some t => Obj.get t k
  | None => VUndef
  end.

(** The form as it opens: each cell at its [useState] default. *)
Definition open (initial : option obj) : Form :=
  mkForm initial
    (Obj.or_else (initial_get initial "title") "")
    (Obj.or_else (initial_get initial "description") "")
    (Obj.or_else (initial_get initial "assignee") "")
    (Obj.or_else (initial_get initial "priority") "Medium")
    (Obj.or_else (initial_get initial "status") "Todo")
    (Obj.or_else (initial_get initial "dueDate") "").

(** [setTitle(e.target.value)] and [setDescription(e.target.value)] *)
Definition setTitle (v : string) (f : Form) : Form :=
  mkForm (initial f) v (description f) (assignee f) (priority f) (status f) (dueDate f).

Definition setDescription (v : string) (f : Form) : Form :=
  mkForm (initial f) (title f) v (assignee f) (priority f) (status f) (dueDate f).

(** The object literal handed to [onSave]. *)
Definition payload (f : Form) : obj :=
  <["id" := initial_get (initial f) "id"]>
    (<["title" := VStr (Js.trim (title f))]>
       (<["description" := VStr (Js.trim (description f))]>
          (<["assignee" := VStr (assignee f)]>
             (<["priority" := VStr (priority f)]>
                (<["status" := VStr (status f)]>
                   (<["dueDate" := VStr (dueDate f)]> ∅)))))).

Definition save (onSave : obj -> State -> State) (f : Form) (st : State) : State :=
  if negb (Js.nonempty (Js.trim (title f))) then alert "Title is required" st
  else onSave (payload f) st.

End TaskForm.

(* ================================================================== *)
(** ** CSV export and import *)

Definition header : list string :=
  ["id"; "title"; "description"; "assignee"; "priority"; "status";
   "dueDate"; "createdAt"; "updatedAt"].

(** [header.map((h) => JSON.stringify(t[h] || "")).join(",")] *)
Definition export_row (t : obj) : string :=
  Js.join "," (map (fun h => JSON.stringify (Obj.or_else (Obj.get t h) "")) header).

(** The text [csv] that [exportCSV] puts in the downloaded file. *)
Definition exportCSV (tasks : list obj) : string :=
  Js.join (String Js.LF "") (Js.join "," header :: map export_row tasks).

(** The loop of [splitCSVLine]; returns [parts] after the final push. *)
Fixpoint scan (line : string) (cur : string) (inQ : bool) (parts : list string)
  : list string :=
  match line with
  | "" => parts ++ [cur]
  | String ch rest =>
      if Js.is_char ch Js.dquote then scan rest cur (negb inQ) parts
      else if Js.is_char ch Js.comma && negb inQ then scan rest "" inQ (parts ++ [cur])
      else scan rest (Js.push cur ch) inQ parts
  end.

(** The closing [parts.map]: each part wrapped in double quotes. *)
Definition requote (p : string) : string :=
  match p with
  | "" => Js.empty_literal
  | _ => Js.quote_str +:+ p +:+ Js.quote_str
  end.

Definition splitCSVLine (line : string) : list string :=
  map requote (scan line "" false []).

(** [parts[i] || the empty literal] *)
Definition part_or_empty (parts : list string) (i : nat) : string :=
  match parts !! i with
  | Some (String c s) => String c s
  | _ => Js.empty_literal
  end.

(** [header.forEach((h, i) => (obj[h] = JSON.parse(parts[i] || ...)))] from
    column [i] on. *)
Fixpoint fill (hs : list string) (i : nat) (parts : list string) (o : obj)
  : outcome obj :=
  match hs with
  | [] => Returns o
  | h :: hs' =>
      let* v := JSON.parse (part_or_empty parts i) in
      fill hs' (S i) parts (Obj.assign o h (VStr v))
  end.

(** The callback of [lines.slice(1).map]: one record draft per line. *)
Definition import_line (hdr : list string) (ln : string) : outcome obj :=
  let parts := splitCSVLine ln in
  let* o := fill hdr 0 parts ∅ in
  Returns (Obj.spread ∅ o).

(** [text.split(/\r?\n/).filter(Boolean)] *)
Definition lines_of (text : string) : list string :=
  List.filter Js.nonempty (Js.split_newlines "" text).

(** [lines[0].split(",").map((h) => h.replace(...))] *)
Definition header_of (line : string) : list string :=
  map Js.remove_quotes (Js.split_comma line).

(** The [onload] handler of [importCSV], run on the text of the file. *)
Definition importCSV (text : string) (st : State) : outcome State :=
  let lines := lines_of text in
  if (length lines <? 2)%nat then Returns (alert "No data found" st)
  else
    let hdr := header_of (hd "" lines) in
    let* imported := traverse (import_line hdr) (tl lines) in
    Returns (mkState (imported ++ tasks st) (showForm st) (editing st)
                     (alerts st) (uid_calls st) (now_calls st)).

(* ================================================================== *)
(** ** Array.prototype.sort

    The engine supplies [sort].  ECMA-262 fixes its result for a
    consistent comparator only; two of the three comparators of
    [visibleTasks] never return 0, so what they yield is up to the
    engine.  The model follows V8 (array-sort.tq): the leading run is
    counted, reversed when it descends, and every later element is put
    in place by binary insertion.  V8 takes exactly this path for arrays
    of fewer than 64 elements. *)

Section ArraySort.

Context {A : Type}.
Variable comparefn : A -> A -> Z.

(** The loop of CountAndMakeRun: how many elements after [prev] go on
    with the run. *)
Fixpoint run_tail (descending : bool) (prev : A) (rest : list A) : nat :=
  match rest with
  | [] => 0
  | cur :: rest' =>
      let order := comparefn cur prev in
      if descending then
        (if (0 <=? order)%Z then 0 else S (run_tail descending cur rest'))
      else
        (if (order <? 0)%Z then 0 else S (run_tail descending cur rest'))
  end.

(** CountAndMakeRun: the leading run, made ascending, and what follows it. *)
Definition count_and_make_run (a : list A) : list A * list A :=
  match a with
  | x0 :: x1 :: rest =>
      let descending := (comparefn x1 x0 <? 0)%Z in
      let n := S (S (run_tail descending x1 rest)) in
      (if descending then reverse (take n a) else take n a, drop n a)
  | _ => (a, [])
  end.

(** The search loop of BinaryInsertionSort; [fuel] bounds its steps. *)
Fixpoint search (fuel : nat) (pivot : A) (a : list A) (left right : nat) : nat :=
  match fuel with
  | O => left
  | S fuel' =>
      if (left <? right)%nat then
        let mid := (left + (right - left) / 2)%nat in
        match a !! mid with
        | Some y =>
            if (comparefn pivot y <? 0)%Z then search fuel' pivot a left mid
            else search fuel' pivot a (S mid) right
        | None => left
        end
      else left
  end.

Definition insert_pivot (sorted : list A) (pivot : A) : list A :=
  let left := search (length sorted) pivot sorted 0 (length sorted) in
  take left sorted ++ pivot :: drop left sorted.

Definition sort (a : list A) : list A :=
  if (length a <? 2)%nat then a
  else
    let '(run, rest) := count_and_make_run a in
    fold_left insert_pivot rest run.

End ArraySort.

(* ================================================================== *)
(** ** The derived view *)

Definition dueDate_cmp (a b : obj) : Z :=
  if Js.gt (Obj.or_else (Obj.get a "dueDate") "9999")
           (Obj.or_else (Obj.get b "dueDate") "9999")
  then 1 else -1.

Definition updatedAt_cmp (a b : obj) : Z :=
  if Js.gt (Obj.or_else (Obj.get a "updatedAt") "")
           (Obj.or_else (Obj.get b "updatedAt") "")
  then -1 else 1.

(** Names every object inherits from [Object.prototype]: [order[p]] is a
    function or an object for them. *)
Definition inherited : list string :=
  ["constructor"; "__defineGetter__"; "__defineSetter__"; "hasOwnProperty";
   "__lookupGetter__"; "__lookupSetter__"; "isPrototypeOf";
   "propertyIsEnumerable"; "toString"; "valueOf"; "__proto__";
   "toLocaleString"].

(** [order[p] || 0] as a number; [None] stands for a value whose
    difference with a number is NaN. *)
Definition rank (p : value) : option Z :=
  match p with
  | VUndef => Some 0%Z
  | VStr s =>
      if decide (s = "Low") then Some 0%Z
      else if decide (s = "Medium") then Some 1%Z
      else if decide (s = "High") then Some 2%Z
      else if decide (s = "Critical") then Some 3%Z
      else if decide (s ∈ inherited) then None
      else Some 0%Z
  end.

(** [sort] reads a NaN from its comparator as 0. *)
Definition priority_cmp (a b : obj) : Z :=
  match rank (Obj.get a "priority"), rank (Obj.get b "priority") with
  | Some x, Some y => (x - y)%Z
  | _, _ => 0%Z
  end.

(** The search predicate; [t.title.toLowerCase()] throws on a task without
    a title. *)
Definition matches (q : string) (t : obj) : outcome bool :=
  match Obj.get t "title" with
  | VUndef => Throws TypeError
  | VStr ti =>
      Returns
        (Js.includes (Js.toLowerCase ti) q
         || Js.includes (Js.toLowerCase (Obj.or_else (Obj.get t "description") "")) q
         || Js.includes (Js.toLowerCase (Obj.or_else (Obj.get t "assignee") "")) q)
  end.

(** The three filters of [visibleTasks]. *)
Definition filtered (tasks : list obj) (query filterStatus filterPriority : string)
  : outcome (list obj) :=
  let* r1 :=
    (if Js.nonempty (Js.trim query)
     then filterM (matches (Js.toLowerCase query)) tasks
     else Returns tasks) in
  let r2 :=
    if decide (filterStatus = "All") then r1
    else List.filter (fun t => bool_decide (Obj.get t "status" = VStr filterStatus)) r1 in
  let r3 :=
    if decide (filterPriority = "All") then r2
    else List.filter (fun t => bool_decide (Obj.get t "priority" = VStr filterPriority)) r2 in
  Returns r3.

(** The sort of [visibleTasks]. *)
Definition sorted_by (sortBy : string) (result : list obj) : list obj :=
  if decide (sortBy = "dueDate") then sort dueDate_cmp result
  else if decide (sortBy = "priority") then sort priority_cmp result
  else if decide (sortBy = "updatedAt") then sort updatedAt_cmp result
  else result.

Definition visibleTasks (tasks : list obj)
    (query filterStatus filterPriority sortBy : string) : outcome (list obj) :=
  let* result := filtered tasks query filterStatus filterPriority in
  Returns (sorted_by sortBy result).

(* ================================================================== *)
(** ** The other handlers of the component *)

(** [removeTask]; [confirmed] is the answer given to the confirm dialog. *)
Definition removeTask (confirmed : bool) (id : value) (st : State) : State :=
  if negb confirmed then st
  else
    mkState (List.filter (fun t => negb (bool_decide (Obj.get t "id" = id))) (tasks st))
            (showForm st) (editing st) (alerts st) (uid_calls st) (now_calls st).

(** [openEdit] *)
Definition openEdit (t : obj) (st : State) : State :=
  mkState (tasks st) true (Some t) (alerts st) (uid_calls st) (now_calls st).

(** The click on Add Task: [setEditing(null); setShowForm(true)]. *)
Definition openAdd (st : State) : State :=
  mkState (tasks st) true None (alerts st) (uid_calls st) (now_calls st).

(** The form the modal renders, [initial={editing}], as it opens. *)
Definition shownForm (st : State) : TaskForm.Form := TaskForm.open (editing st).

(** [s.add(a)] on a set kept in insertion order. *)
Definition set_add (s : list string) (a : string) : list string :=
  if decide (a ∈ s) then s else s ++ [a].

(** [collectAssignees]: [Array.from] lists the set in insertion order. *)
Definition collectAssignees (lst : list obj) : list string :=
  foldl (fun s t =>
           match Obj.get t "assignee" with
           | VStr (String c r) => set_add s (String c r)
           | _ => s
           end) [] lst.

(** [priorityColor] *)
Definition priorityColor (p : value) : string :=
  if decide (p = VStr "Critical") then "#FFD2D2"
  else if decide (p = VStr "High") then "#FFE8CC"
  else if decide (p = VStr "Medium") then "#E7F5FF"
  else "#EAFBEA".

(* ================================================================== *)
(** ** Vocabulary of the statements *)

(** A title that is empty or made of white space only. *)
Fixpoint blank (s : string) : bool :=
  match s with
  | "" => true
  | String c s' => Js.is_white c && blank s'
  end.

(** The data rows of a payload: its non-empty lines after the first. *)
Definition data_rows (text : string) : list string := tl (lines_of text).

(** The record a row yields when all its columns from some point on are
    missing: each remaining header name is given the empty string. *)
Definition blanks (o : obj) (hs : list string) : obj :=
  foldl (fun o h => Obj.assign o h (VStr "")) o hs.

(** No double quote in the string. *)
Fixpoint quote_free (s : string) : bool :=
  match s with
  | "" => true
  | String c s' => negb (Js.is_char c Js.dquote) && quote_free s'
  end.

(** No line feed and no carriage return in the string. *)
Fixpoint one_line (s : string) : bool :=
  match s with
  | "" => true
  | String c s' => negb (Js.is_char c Js.LF) && negb (Js.is_char c Js.CR) && one_line s'
  end.

(** What export writes for a property: the string itself, the empty
    string for a missing, undefined or empty one. *)
Definition field (t : obj) (h : string) : string := Obj.or_else (Obj.get t h) "".

(** The record export and import agree on: the nine properties of the
    schema, each with the string that export wrote for it. *)
Definition exported (t : obj) : obj :=
  foldl (fun o h => <[h := VStr (field t h)]> o) ∅ header.

(** A record of the task model: a string under each of the nine names of
    the schema, and nothing else. *)
Definition schema_record (t : obj) : Prop :=
  forall k, (k ∈ header -> exists s, t !! k = Some (VStr s))
            /\ (k ∉ header -> t !! k = None).

(** No property of a task holds a double quote, as far as export reads it. *)
Definition quote_free_task (t : obj) : Prop :=
  Forall (fun h => quote_free (field t h) = true) header.

(** The key of the sort by due date, and the order on it. *)
Definition due_key (t : obj) : string := Obj.or_else (Obj.get t "dueDate") "9999".

Definition due_le (a b : obj) : Prop := String.le (due_key a) (due_key b).

(** A record whose title is a string, not empty and with no white space
    at either end. *)
Definition titled (t : obj) : Prop :=
  exists s, Obj.get t "title" = VStr s /\ s <> "" /\ Js.trim s = s.

(** A record as the form leaves one: the six properties of the form are
    strings, title and description with no white space at either end,
    title, priority and status not empty. *)
Definition form_shaped (t : obj) : Prop :=
  exists ti d a p s dd,
    t !! "title" = Some (VStr ti) /\ Js.trim ti = ti /\ ti <> ""
    /\ t !! "description" = Some (VStr d) /\ Js.trim d = d
    /\ t !! "assignee" = Some (VStr a)
    /\ t !! "priority" = Some (VStr p) /\ p <> ""
    /\ t !! "status" = Some (VStr s) /\ s <> ""
    /\ t !! "dueDate" = Some (VStr dd).

(** A record without an id: the property is missing, undefined or empty. *)
Definition idless (t : obj) : bool := negb (Obj.truthy (Obj.get t "id")).

(** The record [toggleDone] puts in the place of a record with the id,
    [stamp] being what [now()] returned. *)
Definition toggled_at (stamp : string) (x : obj) : obj :=
  <["updatedAt" := VStr stamp]>
    (<["status" := VStr (if decide (Obj.get x "status" = VStr "Done") then "Todo" else "Done")]> x).

(** The status two clicks on Toggle Done leave. *)
Definition toggled_twice (status : value) : string :=
  if decide (status = VStr "Done") then "Done" else "Todo".

(** The search on one task; it counts as failed where it throws. *)
Definition search_hit (q : string) (t : obj) : bool :=
  match matches (Js.toLowerCase q) t with
  | Returns b => b
  | _ => false
  end.

(** The three tests of the view on one task. *)
Definition shown (q fs fp : string) (t : obj) : bool :=
  (blank q || search_hit q t)
  && (bool_decide (fs = "All") || bool_decide (Obj.get t "status" = VStr fs))
  && (bool_decide (fp = "All") || bool_decide (Obj.get t "priority" = VStr fp)).

(** A record with no title. *)
Definition untitled (t : obj) : bool := bool_decide (Obj.get t "title" = VUndef).

(** The key of the sort by priority, for a priority whose rank is a
    number, and the key of the sort by last update. *)
Definition rank_key (t : obj) : Z := default 0%Z (rank (Obj.get t "priority")).

Definition ranked (t : obj) : Prop := rank (Obj.get t "priority") <> None.

Definition updated_key (t : obj) : string := Obj.or_else (Obj.get t "updatedAt") "".

(** A field as a file without quoting writes it: no double quote, no
    comma, no backslash and no control character. *)
Definition plain_char (c : ascii) : bool :=
  negb (Js.is_char c Js.dquote) && negb (Js.is_char c Js.comma)
  && negb (Js.is_char c Js.backslash) && negb (Js.code c <? 32)%N.

Fixpoint plain (s : string) : bool :=
  match s with
  | "" => true
  | String c s' => plain_char c && plain s'
  end.

(** The record that holds the values of a row under the names of their
    columns. *)
Definition record_of (names vs : list string) : obj :=
  foldl (fun o hv => Obj.assign o hv.1 (VStr hv.2)) ∅ (zip names vs).

(** A state with other tasks. *)
Definition with_tasks (ts : list obj) (st : State) : State :=
  mkState ts (showForm st) (editing st) (alerts st) (uid_calls st) (now_calls st).

(** How many of the records before place [i] carry the id: the calls of
    [now()] that a [map] over the collection has made for that id when it
    comes to place [i]. *)
Definition hits_before (id : value) (s : list obj) (i : nat) : nat :=
  length (List.filter (fun t => bool_decide (Obj.get t "id" = id)) (take i s)).

(* ================================================================== *)
(** ** Sample data for the concrete runs *)

Module Run.

(** An outside world: the n-th id is [u] followed by n strokes, the n-th
    time stamp [t] followed by n strokes. *)
Fixpoint strokes (n : nat) : string :=
  match n with
  | O => ""
  | S n' => String "|" (strokes n')
  end.

Definition uids (n : nat) : string := String "u" (strokes n).
Definition clock (n : nat) : string := String "t" (strokes n).

(** A record with the nine properties of the schema. *)
Definition task (id title description assignee priority status dueDate
                 createdAt updatedAt : string) : obj :=
  sample_task id title description assignee priority status dueDate
              createdAt updatedAt.

Definition truck : obj :=
  task "abc123" "Fix truck 12" "Replace brake pads" "Rami" "High" "In Progress"
       "2025-11-20" "2025-11-11T08:00:00.000Z" "2025-11-11T09:00:00.000Z".

Definition at_rest (ts : list obj) : State := mkState ts false None [] 0 0.

(** The form opened by Add Task, with a title typed in. *)
Definition typed (title : string) : TaskForm.Form :=
  TaskForm.setTitle title (TaskForm.open None).

Definition rename_missing : obj :=
  <["id" := VStr "zzz999"]> (<["title" := VStr "Renamed"]> ∅).

Definition rename_truck : obj :=
  <["id" := VStr "abc123"]> (<["title" := VStr "Fix truck 13"]> ∅).

Definition backdate_truck : obj :=
  <["createdAt" := VStr "1999-01-01T00:00:00.000Z"]> rename_truck.

(** The scenario of the spec: a description with a comma in it. *)
Definition brakes : obj :=
  task "abc123" "Fix truck 12" "Replace, then test" "Rami" "High" "In Progress"
       "2025-11-20" "2025-11-11T08:00:00.000Z" "2025-11-11T09:00:00.000Z".

(** Descriptions with a double quote in them: the inch mark. *)
Definition inch_disc : obj :=
  <["description" := VStr ("Fit the 12" +:+ Js.quote_str +:+ " disc")]> brakes.

Definition inch_bolts : obj :=
  <["description" := VStr ("Use 6" +:+ Js.quote_str +:+ "bolts")]> brakes.

(** A description with a comma between two double quotes. *)
Definition both_pads : obj :=
  <["description" :=
      VStr ("Replace " +:+ Js.quote_str +:+ "both, front" +:+ Js.quote_str +:+ " pads")]>
    brakes.

(** The scenario of the spec for the sort by due date. *)
Definition due (id dueDate : string) : obj :=
  task id ("Task " +:+ id) "" "" "Medium" "Todo" dueDate
       "2025-11-11T08:00:00.000Z" "2025-11-11T08:00:00.000Z".

Definition A : obj := due "A" "2025-01-01".
Definition B : obj := due "B" "".
Definition C : obj := due "C" "2024-06-01".

(** A due date in the year 9999. *)
Definition Y : obj := due "Y" "9999-12-31".

(** Two tasks of the same priority and with no due date. *)
Definition P1 : obj := task "P1" "Grease" "" "" "High" "Todo" "" "t" "t".
Definition P2 : obj := task "P2" "Wash" "" "" "High" "Todo" "" "t" "t".

(** The record the form leaves for a new task: its id is undefined. *)
Definition unnumbered : obj := <["id" := VUndef]> truck.

End Run.

(* ================================================================== *)
(** * Properties of the task store *)

Lemma trimStart_blank s : blank s = true -> Js.trimStart s = "".
Proof.
  induction s as [|c s IH]; simpl; [done|].
  intros [Hc Hs]%andb_true_iff. rewrite Hc. auto.
Qed.

Lemma trim_blank s : blank s = true -> Js.trim s = "".
Proof. intros H. unfold Js.trim. by rewrite trimStart_blank. Qed.

Lemma trimEnd_empty s : Js.trimEnd s = "" -> blank s = true.
Proof.
  induction s as [|c s IH]; simpl; [done|].
  destruct (Js.trimEnd s) eqn:E; [|done].
  destruct (Js.is_white c); [auto|done].
Qed.

Lemma blank_trimStart s : blank (Js.trimStart s) = true -> blank s = true.
Proof.
  induction s as [|c s IH]; simpl; [done|].
  destruct (Js.is_white c) eqn:E; simpl; [auto|].
  rewrite E. done.
Qed.

(** [title.trim()] is falsy exactly for the blank titles. *)
Lemma trim_empty_iff s : Js.trim s = "" <-> blank s = true.
Proof.
  split; [|apply trim_blank].
  intros H. apply blank_trimStart, trimEnd_empty, H.
Qed.

Lemma hits_before_0 id s : hits_before id s 0 = 0%nat.
Proof. unfold hits_before. by rewrite take_0. Qed.

Lemma hits_before_cons_hit id y s i :
  Obj.get y "id" = id -> hits_before id (y :: s) (S i) = S (hits_before id s i).
Proof. intros H. unfold hits_before. simpl. by rewrite bool_decide_eq_true_2. Qed.

Lemma hits_before_cons_miss id y s i :
  Obj.get y "id" <> id -> hits_before id (y :: s) (S i) = hits_before id s i.
Proof. intros H. unfold hits_before. simpl. by rewrite bool_decide_eq_false_2. Qed.

(** The call made for a record with the id is one of the calls of the
    whole [map]. *)
Lemma hits_before_lt id s i x :
  s !! i = Some x -> Obj.get x "id" = id ->
  (hits_before id s i < hits_before id s (length s))%nat.
Proof.
  revert i. induction s as [|y s IH]; intros i; [done|].
  destruct i as [|i]; simpl.
  - intros [= ->] Hid. rewrite hits_before_0, hits_before_cons_hit by done. lia.
  - intros Hi Hid. specialize (IH i Hi Hid).
    destruct (decide (Obj.get y "id" = id)).
    + rewrite !hits_before_cons_hit by done. lia.
    + by rewrite !hits_before_cons_miss by done.
Qed.

Section StoreFacts.

Variable uid_at : nat -> string.
Variable now_at : nat -> string.

Local Abbreviation upsert := (upsertTask uid_at now_at).

(** The guard of [upsertTask]: a payload whose title is missing or empty
    changes nothing, and nothing is reported. *)
Lemma upsertTask_without_title payload st :
  Obj.truthy (Obj.get payload "title") = false -> upsert payload st = st.
Proof. intros H. unfold upsertTask. by rewrite H. Qed.

(** The guard looks at the title as it is, white space included: any
    other payload without an id puts a new record in front. *)
Lemma upsertTask_creates payload st :
  Obj.truthy (Obj.get payload "title") = true ->
  Obj.truthy (Obj.get payload "id") = false ->
  tasks (upsert payload st) = new_task uid_at now_at payload st :: tasks st
  /\ alerts (upsert payload st) = alerts st.
Proof. intros Ht Hi. unfold upsertTask. by rewrite Ht, Hi. Qed.

Lemma update_matching_absent payload s n :
  Forall (fun x => Obj.get x "id" <> Obj.get payload "id") s ->
  update_matching now_at payload s n = (s, n).
Proof.
  intros H. revert n. induction H as [|x s Hx _ IH]; intros n; simpl; [done|].
  rewrite decide_False by done. by rewrite IH.
Qed.

(** What [map] puts at index [i]: the merged record when the ids agree,
    the record itself otherwise. *)
Lemma update_matching_lookup payload s n i x :
  s !! i = Some x ->
  exists m,
    (update_matching now_at payload s n).1 !! i
    = Some (if decide (Obj.get x "id" = Obj.get payload "id")
            then <["updatedAt" := VStr (now_at m)]> (Obj.spread x payload)
            else x).
Proof.
  revert n i. induction s as [|y s IH]; intros n i; [done|].
  destruct i as [|i]; simpl.
  - intros [= ->]. case_decide.
    + exists n. by destruct (update_matching _ _ _ _).
    + exists n. by destruct (update_matching _ _ _ _).
  - intros Hi. destruct (decide (Obj.get y "id" = Obj.get payload "id")).
    + destruct (IH (S n) i Hi) as [m Hm]. exists m.
      destruct (update_matching _ _ _ (S n)); simpl in *. exact Hm.
    + destruct (IH n i Hi) as [m Hm]. exists m.
      destruct (update_matching _ _ _ n); simpl in *. exact Hm.
Qed.

Lemma upsertTask_update_tasks payload st :
  Obj.truthy (Obj.get payload "title") = true ->
  Obj.truthy (Obj.get payload "id") = true ->
  tasks (upsert payload st)
  = (update_matching now_at payload (tasks st) (now_calls st)).1.
Proof.
  intros Ht Hi. unfold upsertTask. rewrite Ht, Hi. simpl.
  by destruct (update_matching _ _ _ _).
Qed.

(** The same with the call of [now()] named: the record at place [i]
    gets what the call after those made for the records before it
    returns. *)
Lemma update_matching_lookup_at payload s n i x :
  s !! i = Some x ->
  (update_matching now_at payload s n).1 !! i
  = Some (if decide (Obj.get x "id" = Obj.get payload "id")
          then <["updatedAt" :=
                   VStr (now_at (n + hits_before (Obj.get payload "id") s i))]>
                 (Obj.spread x payload)
          else x).
Proof.
  revert n i. induction s as [|y s IH]; intros n i; [done|].
  destruct i as [|i]; simpl.
  - intros [= ->]. rewrite hits_before_0, Nat.add_0_r.
    case_decide; by destruct (update_matching _ _ _ _).
  - intros Hi. destruct (decide (Obj.get y "id" = Obj.get payload "id")).
    + rewrite hits_before_cons_hit by done.
      specialize (IH (S n) i Hi). destruct (update_matching _ _ _ (S n)); simpl in *.
      rewrite IH, Nat.add_succ_r. reflexivity.
    + rewrite hits_before_cons_miss by done.
      specialize (IH n i Hi). by destruct (update_matching _ _ _ n).
Qed.

Lemma update_matching_calls payload s n :
  (update_matching now_at payload s n).2
  = (n + hits_before (Obj.get payload "id") s (length s))%nat.
Proof.
  revert n. induction s as [|y s IH]; intros n; simpl.
  { by rewrite hits_before_0, Nat.add_0_r. }
  case_decide.
  - rewrite hits_before_cons_hit by done.
    specialize (IH (S n)). destruct (update_matching _ _ _ (S n)); simpl in *. lia.
  - rewrite hits_before_cons_miss by done.
    specialize (IH n). by destruct (update_matching _ _ _ n).
Qed.

Lemma upsertTask_update_calls payload st :
  Obj.truthy (Obj.get payload "title") = true ->
  Obj.truthy (Obj.get payload "id") = true ->
  now_calls (upsert payload st)
  = (now_calls st + hits_before (Obj.get payload "id") (tasks st) (length (tasks st)))%nat.
Proof.
  intros Ht Hi. rewrite <- update_matching_calls.
  unfold upsertTask. rewrite Ht, Hi. simpl.
  by destruct (update_matching _ _ _ _).
Qed.

(** The record an update leaves at the place of a record with the id. *)
Lemma update_at (payload : obj) (st : State) (i : nat) (x : obj) :
  Obj.truthy (Obj.get payload "title") = true ->
  Obj.truthy (Obj.get payload "id") = true ->
  tasks st !! i = Some x ->
  Obj.get x "id" = Obj.get payload "id" ->
  tasks (upsert payload st) !! i
  = Some (<["updatedAt" :=
              VStr (now_at (now_calls st
                            + hits_before (Obj.get payload "id") (tasks st) i))]>
            (Obj.spread x payload)).
Proof.
  intros Ht Hi Hx Hid. rewrite upsertTask_update_tasks by done.
  rewrite (update_matching_lookup_at payload (tasks st) (now_calls st) i x Hx).
  by rewrite decide_True.
Qed.

Lemma spread_lookup_absent (x payload : obj) k :
  payload !! k = None -> Obj.spread x payload !! k = x !! k.
Proof. intros H. unfold Obj.spread. by rewrite lookup_union_r. Qed.

Lemma spread_lookup_present (x payload : obj) k v :
  payload !! k = Some v -> Obj.spread x payload !! k = Some v.
Proof. intros H. unfold Obj.spread. by apply lookup_union_Some_l. Qed.

(** The record a create call builds takes every property the payload
    names from the payload, [id] included. *)
Lemma new_task_takes_payload payload st k v :
  payload !! k = Some v -> new_task uid_at now_at payload st !! k = Some v.
Proof. intros H. unfold new_task. by apply spread_lookup_present. Qed.

(** A task created through the form: the payload carries [id: undefined]
    and the spread puts it over the id that [uid()] returned. *)
Lemma form_create_has_undefined_id (f : TaskForm.Form) (st : State) :
  TaskForm.initial f = None -> blank (TaskForm.title f) = false ->
  exists t,
    tasks (TaskForm.save upsert f st) = t :: tasks st
    /\ t !! "id" = Some VUndef
    /\ uid_calls (TaskForm.save upsert f st) = S (uid_calls st).
Proof.
  intros Hinit Hblank. unfold TaskForm.save.
  destruct (Js.trim (TaskForm.title f)) as [|c s] eqn:Htrim.
  { apply trim_empty_iff in Htrim. congruence. }
  simpl. unfold upsertTask, TaskForm.payload. rewrite Hinit. simpl.
  assert (Obj.get (<["id" := VUndef]> (<["title" := VStr (Js.trim (TaskForm.title f))]>
            (<["description" := VStr (Js.trim (TaskForm.description f))]>
            (<["assignee" := VStr (TaskForm.assignee f)]>
            (<["priority" := VStr (TaskForm.priority f)]>
            (<["status" := VStr (TaskForm.status f)]>
            (<["dueDate" := VStr (TaskForm.dueDate f)]> ∅))))))) "title"
          = VStr (Js.trim (TaskForm.title f))) as Ht by reflexivity.
  rewrite Ht, Htrim. simpl.
  eexists. split; [reflexivity|]. split; [|reflexivity].
  apply new_task_takes_payload. reflexivity.
Qed.

(** C1 (as the code has it): a save of the task form whose title is empty
    or white space only shows the alert [Title is required] and never
    reaches [upsertTask]: the collection, and the rest of the state, stay
    as they were.  [upsertTask] itself turns away the payload whose title
    is missing or empty, without a word. *)
Theorem blank_title_rejected (f : TaskForm.Form) (payload : obj) (st : State) :
  (blank (TaskForm.title f) = true ->
     TaskForm.save upsert f st = alert "Title is required" st
     /\ tasks (TaskForm.save upsert f st) = tasks st
     /\ alerts (TaskForm.save upsert f st) = (alerts st ++ ["Title is required"])%list)
  /\ (Obj.truthy (Obj.get payload "title") = false -> upsert payload st = st).
Proof.
  split.
  - intros H. unfold TaskForm.save. rewrite (trim_blank _ H). simpl. done.
  - apply upsertTask_without_title.
Qed.

(** C4 (as the code has it): an update whose id no record carries leaves
    the collection as it is and reports nothing; the call ends like a
    successful save, by closing the form. *)
Theorem update_absent_id_is_silent (payload : obj) (st : State) :
  Obj.truthy (Obj.get payload "title") = true ->
  Obj.truthy (Obj.get payload "id") = true ->
  Forall (fun x => Obj.get x "id" <> Obj.get payload "id") (tasks st) ->
  upsert payload st = closeForm st
  /\ tasks (upsert payload st) = tasks st
  /\ alerts (upsert payload st) = alerts st.
Proof.
  intros Ht Hi Habs.
  assert (upsert payload st = closeForm st) as ->; [|done].
  unfold upsertTask. rewrite Ht, Hi. simpl.
  rewrite update_matching_absent by done.
  by destruct st.
Qed.

(** What the merge of an update does to a record that carries the id. *)
Lemma update_frame (payload : obj) (st : State) (i : nat) (x : obj) :
  Obj.truthy (Obj.get payload "title") = true ->
  Obj.truthy (Obj.get payload "id") = true ->
  tasks st !! i = Some x ->
  Obj.get x "id" = Obj.get payload "id" ->
  exists x' m,
    tasks (upsert payload st) !! i = Some x'
    /\ x' = <["updatedAt" := VStr (now_at m)]> (Obj.spread x payload)
    /\ Obj.get x' "id" = Obj.get x "id"
    /\ (forall k, payload !! k = None -> k <> "updatedAt" -> x' !! k = x !! k).
Proof.
  intros Ht Hi Hx Hid.
  rewrite upsertTask_update_tasks by done.
  destruct (update_matching_lookup payload (tasks st) (now_calls st) i x Hx) as [m Hm].
  rewrite decide_True in Hm by done.
  eexists _, m. split; [exact Hm|]. split; [done|]. split.
  - unfold Obj.get at 1. rewrite lookup_insert_ne by done.
    destruct (payload !! "id") as [v|] eqn:Hp.
    + rewrite (spread_lookup_present _ _ _ _ Hp). simpl.
      rewrite Hid. unfold Obj.get. by rewrite Hp.
    + rewrite (spread_lookup_absent _ _ _ Hp). done.
  - intros k Hk Hne. rewrite lookup_insert_ne by done. by apply spread_lookup_absent.
Qed.

(** An edit through the form: the payload names [id], [title],
    [description], [assignee], [priority], [status] and [dueDate], so the
    record keeps its id, its [createdAt] and whatever else it holds. *)
Lemma form_update_keeps_identity (f : TaskForm.Form) (st : State) (i : nat) (x y : obj) :
  TaskForm.initial f = Some y ->
  blank (TaskForm.title f) = false ->
  Obj.truthy (Obj.get y "id") = true ->
  tasks st !! i = Some x ->
  Obj.get x "id" = Obj.get y "id" ->
  exists x',
    tasks (TaskForm.save upsert f st) !! i = Some x'
    /\ Obj.get x' "id" = Obj.get x "id"
    /\ x' !! "createdAt" = x !! "createdAt"
    /\ Obj.get x' "title" = VStr (Js.trim (TaskForm.title f)).
Proof.
  intros Hinit Hblank Hyid Hx Hid. unfold TaskForm.save.
  destruct (Js.trim (TaskForm.title f)) as [|c s] eqn:Htrim.
  { apply trim_empty_iff in Htrim. congruence. }
  simpl negb. cbv iota.
  assert (Obj.get (TaskForm.payload f) "title" = VStr (String c s)) as Hpt.
  { unfold TaskForm.payload. rewrite Htrim. reflexivity. }
  assert (Obj.get (TaskForm.payload f) "id" = Obj.get y "id") as Hpi.
  { unfold TaskForm.payload. rewrite Hinit. reflexivity. }
  destruct (update_frame (TaskForm.payload f) st i x) as (x' & m & Hx' & Heq & Hid' & Hframe).
  { by rewrite Hpt. }
  { by rewrite Hpi. }
  { done. }
  { by rewrite Hpi. }
  exists x'. split; [done|]. split; [done|]. split.
  - apply Hframe; [reflexivity|discriminate].
  - rewrite Heq. unfold Obj.get at 1. rewrite lookup_insert_ne by discriminate.
    rewrite (spread_lookup_present _ _ "title" (VStr (Js.trim (TaskForm.title f)))).
    + done.
    + reflexivity.
Qed.

(** C5 (as the code has it): an update keeps the id of the record it
    merges into and every property the payload does not name, apart from
    [updatedAt]; [createdAt] is kept on that account only, when the
    payload does not name it, and is the payload's when it does.
    [updatedAt] is what [now()] returns at the call made for the record:
    a call of this update, the one after the calls made for the records
    with the id that stand before it. *)
Theorem update_keeps_unnamed_fields (payload : obj) (st : State) (i : nat) (x : obj) :
  Obj.truthy (Obj.get payload "title") = true ->
  Obj.truthy (Obj.get payload "id") = true ->
  tasks st !! i = Some x ->
  Obj.get x "id" = Obj.get payload "id" ->
  exists x',
    tasks (upsert payload st) !! i = Some x'
    /\ Obj.get x' "id" = Obj.get x "id"
    /\ (payload !! "createdAt" = None -> x' !! "createdAt" = x !! "createdAt")
    /\ (forall v, payload !! "createdAt" = Some v -> x' !! "createdAt" = Some v)
    /\ (forall k, payload !! k = None -> k <> "updatedAt" -> x' !! k = x !! k)
    /\ x' !! "updatedAt"
       = Some (VStr (now_at (now_calls st
                             + hits_before (Obj.get payload "id") (tasks st) i)))
    /\ (now_calls st + hits_before (Obj.get payload "id") (tasks st) i
        < now_calls (upsert payload st))%nat.
Proof.
  intros Ht Hi Hx Hid.
  destruct (update_frame payload st i x Ht Hi Hx Hid) as (x' & m & Hx' & _ & Hid' & Hframe).
  pose proof (update_at payload st i x Ht Hi Hx Hid) as Hat.
  rewrite Hx' in Hat. injection Hat as ->.
  eexists. split; [exact Hx'|]. split; [exact Hid'|].
  split; [intros Hc; by apply Hframe|].
  split.
  { intros v Hv. rewrite lookup_insert_ne by done. by apply spread_lookup_present. }
  split; [exact Hframe|].
  split; [apply lookup_insert_eq|].
  rewrite upsertTask_update_calls by done.
  apply Nat.add_lt_mono_l. by eapply hits_before_lt.
Qed.

End StoreFacts.

Lemma blank_title_rejected_witness :
  blank "  " = true
  /\ tasks (TaskForm.save (upsertTask Run.uids Run.clock) (Run.typed "  ")
                          (Run.at_rest [Run.truck]))
     = [Run.truck]
  /\ upsertTask Run.uids Run.clock (<["title" := VStr ""]> ∅) (Run.at_rest [Run.truck])
     = Run.at_rest [Run.truck].
Proof.
  split; [reflexivity|]. split.
  - exact (proj1 (proj2 (proj1 (blank_title_rejected Run.uids Run.clock (Run.typed "  ")
                                  ∅ (Run.at_rest [Run.truck])) eq_refl))).
  - exact (proj2 (blank_title_rejected Run.uids Run.clock (Run.typed "  ")
                    (<["title" := VStr ""]> ∅) (Run.at_rest [Run.truck])) eq_refl).
Defined.

(** C1, as stated, fails for [upsertTask] itself: a title of white space
    passes its guard and a task is added; an empty title is turned away,
    but with no alert and no exception. *)
Lemma upsertTask_accepts_blank_title :
  let st := Run.at_rest [Run.truck] in
  let spaces : obj := <["title" := VStr "  "]> ∅ in
  let nothing : obj := <["title" := VStr ""]> ∅ in
  blank "  " = true
  /\ tasks (upsertTask Run.uids Run.clock spaces st)
     = [new_task Run.uids Run.clock spaces st; Run.truck]
  /\ Obj.get (new_task Run.uids Run.clock spaces st) "title" = VStr "  "
  /\ alerts (upsertTask Run.uids Run.clock spaces st) = []
  /\ upsertTask Run.uids Run.clock nothing st = st
  /\ alerts st = [].
Proof. cbv zeta. repeat split; reflexivity. Qed.

(** C4, as stated, fails: the update of an id that no record carries
    reports nothing.  [upsertTask] has no throw statement and shows no
    alert; the call returns with the form closed as after a successful
    save. *)
Lemma update_absent_id_reports_nothing :
  let st := mkState [Run.truck] true (Some Run.truck) [] 0 0 in
  let st' := upsertTask Run.uids Run.clock Run.rename_missing st in
  Forall (fun x => Obj.get x "id" <> VStr "zzz999") (tasks st)
  /\ alerts st' = []
  /\ showForm st' = false
  /\ tasks st' = [Run.truck].
Proof.
  cbv zeta. split; [|done].
  repeat constructor. discriminate.
Qed.

Lemma update_absent_id_is_silent_witness :
  upsertTask Run.uids Run.clock Run.rename_missing (Run.at_rest [Run.truck])
  = closeForm (Run.at_rest [Run.truck]).
Proof.
  refine (proj1 (update_absent_id_is_silent Run.uids Run.clock Run.rename_missing
                   (Run.at_rest [Run.truck]) eq_refl eq_refl _)).
  repeat constructor. discriminate.
Defined.

(** C5, as stated, fails: a payload that names [createdAt] replaces it. *)
Lemma update_can_change_createdAt :
  let st := Run.at_rest [Run.truck] in
  let st' := upsertTask Run.uids Run.clock Run.backdate_truck st in
  map (fun t => Obj.get t "createdAt") (tasks st) = [VStr "2025-11-11T08:00:00.000Z"]
  /\ map (fun t => Obj.get t "id") (tasks st') = [VStr "abc123"]
  /\ map (fun t => Obj.get t "createdAt") (tasks st') = [VStr "1999-01-01T00:00:00.000Z"].
Proof. by vm_compute. Qed.

Lemma update_keeps_unnamed_fields_witness :
  exists x',
    tasks (upsertTask Run.uids Run.clock Run.rename_truck (Run.at_rest [Run.truck])) !! 0%nat
    = Some x'
    /\ Obj.get x' "id" = VStr "abc123"
    /\ x' !! "createdAt" = Some (VStr "2025-11-11T08:00:00.000Z")
    /\ x' !! "assignee" = Some (VStr "Rami")
    /\ x' !! "updatedAt" = Some (VStr (Run.clock 0)).
Proof.
  destruct (update_keeps_unnamed_fields Run.uids Run.clock Run.rename_truck
              (Run.at_rest [Run.truck]) 0 Run.truck eq_refl eq_refl eq_refl eq_refl)
    as (x' & H0 & Hid & Hc & _ & Hk & Hu & _).
  exists x'. split; [exact H0|]. split; [exact Hid|]. split; [|split].
  - rewrite (Hc eq_refl). reflexivity.
  - rewrite (Hk "assignee" eq_refl); [reflexivity|discriminate].
  - exact Hu.
Defined.

(** C6: two tasks created through the form.  The payload of the form
    carries [id: undefined] whenever no task is being edited, and the
    spread of the payload comes after [id: uid()] in the new record: both
    records end with an undefined id, whatever [uid()] returned. *)
Theorem form_created_ids_are_undefined (uid_at now_at : nat -> string) :
  let onSave := upsertTask uid_at now_at in
  let st := TaskForm.save onSave (Run.typed "Second")
              (TaskForm.save onSave (Run.typed "First") (Run.at_rest [])) in
  map (fun t => Obj.get t "title") (tasks st) = [VStr "Second"; VStr "First"]
  /\ map (fun t => t !! "id") (tasks st) = [Some VUndef; Some VUndef]
  /\ uid_calls st = 2%nat.
Proof. by vm_compute. Qed.

(* ================================================================== *)
(** * Properties of the import *)

(** C9: a payload without data rows (no line at all, or the header line
    only) makes the import show the alert [No data found] and return; the
    collection, and the rest of the state, stay as they were. *)
Theorem import_without_data_rows (text : string) (st : State) :
  data_rows text = [] ->
  importCSV text st = Returns (alert "No data found" st)
  /\ tasks (alert "No data found" st) = tasks st
  /\ alerts (alert "No data found" st) = (alerts st ++ ["No data found"])%list.
Proof.
  intros H. split; [|done].
  unfold importCSV, data_rows in *.
  destruct (lines_of text) as [|l0 [|l1 ls]]; simpl in *; done.
Qed.

Lemma import_without_data_rows_witness :
  data_rows (Js.join "," header) = []
  /\ importCSV (Js.join "," header) (Run.at_rest [Run.truck])
     = Returns (alert "No data found" (Run.at_rest [Run.truck])).
Proof.
  split; [reflexivity|].
  exact (proj1 (import_without_data_rows (Js.join "," header)
                  (Run.at_rest [Run.truck]) eq_refl)).
Defined.

(** The other branch: with a data row the import shows no alert. *)
Lemma import_with_data_rows text st st' :
  data_rows text <> [] -> importCSV text st = Returns st' ->
  alerts st' = alerts st /\ exists imported, tasks st' = (imported ++ tasks st)%list.
Proof.
  unfold importCSV, data_rows.
  destruct (lines_of text) as [|l0 [|l1 ls]]; simpl; [done..|].
  intros _.
  destruct (import_line _ l1) as [o| |]; simpl; [|done..].
  destruct (traverse _ ls) as [os| |]; simpl; [|done..].
  intros [= <-]. simpl. split; [done|]. by exists (o :: os).
Qed.

Lemma part_or_empty_missing parts i :
  (length parts <= i)%nat -> part_or_empty parts i = Js.empty_literal.
Proof. intros H. unfold part_or_empty. by rewrite lookup_ge_None_2. Qed.

Lemma fill_missing hs i parts o :
  (length parts <= i)%nat -> fill hs i parts o = Returns (blanks o hs).
Proof.
  revert i o. induction hs as [|h hs IH]; intros i o Hi; simpl; [done|].
  rewrite part_or_empty_missing by done. simpl.
  apply IH. lia.
Qed.

Lemma assign_lookup_eq o h v :
  h <> "__proto__" -> Obj.assign o h v !! h = Some v.
Proof. intros H. unfold Obj.assign. rewrite decide_False by done. apply lookup_insert_eq. Qed.

Lemma assign_blank_keeps o h k :
  o !! k = Some (VStr "") -> Obj.assign o h (VStr "") !! k = Some (VStr "").
Proof.
  intros H. unfold Obj.assign. case_decide; [done|].
  destruct (decide (h = k)) as [->|]; [apply lookup_insert_eq|by rewrite lookup_insert_ne].
Qed.

Lemma blanks_keeps hs o k :
  o !! k = Some (VStr "") -> blanks o hs !! k = Some (VStr "").
Proof.
  revert o. induction hs as [|h hs IH]; intros o H; simpl; [done|].
  apply IH, assign_blank_keeps, H.
Qed.

Lemma fill_defaults parts hs i o :
  (forall j p, (j < length hs)%nat -> parts !! (i + j)%nat = Some p ->
               exists v, JSON.parse p = Returns v) ->
  exists o',
    fill hs i parts o = Returns o'
    /\ forall j h, hs !! j = Some h -> (length parts <= i + j)%nat ->
                   h <> "__proto__" -> o' !! h = Some (VStr "").
Proof.
  revert i o. induction hs as [|h0 hs IH]; intros i o Hparse; simpl.
  { exists o. split; [done|]. intros j h Hj. by rewrite lookup_nil in Hj. }
  assert (exists v, JSON.parse (part_or_empty parts i) = Returns v) as [v Hv].
  { unfold part_or_empty. destruct (parts !! i) as [p|] eqn:Hp.
    - destruct (Hparse 0%nat p) as [v Hv]; [simpl; lia|by rewrite Nat.add_0_r|].
      destruct p; [by eexists|]. by exists v.
    - by eexists. }
  rewrite Hv. simpl.
  destruct (IH (S i) (Obj.assign o h0 (VStr v))) as (o' & Ho' & Hblank).
  { intros j p Hj Hp. apply (Hparse (S j) p); [simpl; lia|].
    by replace (i + S j)%nat with (S i + j)%nat by lia. }
  exists o'. split; [done|].
  intros [|j] h Hh Hlen Hne; simpl in Hh.
  - injection Hh as ->.
    rewrite fill_missing in Ho' by lia. injection Ho' as <-.
    apply blanks_keeps.
    rewrite part_or_empty_missing in Hv by lia.
    injection Hv as <-. by apply assign_lookup_eq.
  - apply (Hblank j h Hh); [lia|done].
Qed.

(** One row: when the fields it has all decode, the row yields a record
    draft, and every header column beyond its last field holds the empty
    string there. *)
Lemma import_line_defaults (hdr : list string) (ln : string) :
  (forall i p, (i < length hdr)%nat -> splitCSVLine ln !! i = Some p ->
               exists v, JSON.parse p = Returns v) ->
  exists draft,
    import_line hdr ln = Returns draft
    /\ forall i h, hdr !! i = Some h -> (length (splitCSVLine ln) <= i)%nat ->
                   h <> "__proto__" -> draft !! h = Some (VStr "").
Proof.
  intros Hparse. unfold import_line.
  destruct (fill_defaults (splitCSVLine ln) hdr 0 ∅) as (o & Ho & Hblank).
  { intros j p Hj Hp. by apply (Hparse j p). }
  exists o. rewrite Ho. simpl. split.
  - f_equal. unfold Obj.spread. apply (right_id_L ∅ (∪)).
  - intros i h Hh Hlen Hne. by apply (Hblank i h).
Qed.

Lemma traverse_returns {A B : Type} (f : A -> outcome B) (P : A -> B -> Prop) l :
  (forall x, x ∈ l -> exists y, f x = Returns y /\ P x y) ->
  exists ys, traverse f l = Returns ys /\ Forall2 P l ys.
Proof.
  induction l as [|x l IH]; intros H; simpl.
  { by exists []. }
  destruct (H x) as (y & Hy & HP); [by left|].
  destruct IH as (ys & Hys & HF); [intros z Hz; apply H; by right|].
  exists (y :: ys). rewrite Hy, Hys. simpl. split; [done|by constructor].
Qed.

(** C10 (as the code has it): a payload with data rows whose fields all
    decode is imported, however few fields a row has: every row yields a
    record draft, put in front of the collection in the order of the
    rows, and in the draft of a row every header column beyond the last
    field of the row holds the empty string.  (The one name a draft
    cannot hold is [__proto__]: assigning a string to it is ignored.) *)
Theorem import_short_row_defaults (text : string) (st : State) :
  let hdr := header_of (hd "" (lines_of text)) in
  data_rows text <> [] ->
  (forall ln i p, ln ∈ data_rows text -> (i < length hdr)%nat ->
                  splitCSVLine ln !! i = Some p ->
                  exists v, JSON.parse p = Returns v) ->
  exists drafts,
    importCSV text st
    = Returns (mkState (drafts ++ tasks st) (showForm st) (editing st)
                       (alerts st) (uid_calls st) (now_calls st))
    /\ Forall2
         (fun ln draft =>
            forall i h, hdr !! i = Some h -> (length (splitCSVLine ln) <= i)%nat ->
                        h <> "__proto__" -> draft !! h = Some (VStr ""))
         (data_rows text) drafts.
Proof.
  intros hdr Hrows Hparse. unfold importCSV. subst hdr. unfold data_rows in *.
  destruct (lines_of text) as [|l0 [|l1 ls]]; [done..|].
  change (length (l0 :: l1 :: ls) <? 2)%nat with false. cbv iota.
  change (hd "" (l0 :: l1 :: ls)) with l0 in *.
  change (tl (l0 :: l1 :: ls)) with (l1 :: ls) in *.
  destruct (traverse_returns (import_line (header_of l0))
              (fun ln draft =>
                 forall i h, header_of l0 !! i = Some h ->
                             (length (splitCSVLine ln) <= i)%nat ->
                             h <> "__proto__" -> draft !! h = Some (VStr ""))
              (l1 :: ls)) as (drafts & Hd & HF).
  { intros ln Hln. apply import_line_defaults. intros i p Hi Hp.
    by apply (Hparse ln i p). }
  exists drafts. rewrite Hd. done.
Qed.

Lemma import_short_row_defaults_witness :
  exists draft,
    importCSV ("id,title,description,dueDate" +:+ String Js.LF "abc123,Fix truck 12")
              (Run.at_rest [Run.truck])
    = Returns (Run.at_rest [draft; Run.truck])
    /\ draft !! "title" = Some (VStr "Fix truck 12")
    /\ draft !! "description" = Some (VStr "")
    /\ draft !! "dueDate" = Some (VStr "").
Proof.
  destruct (import_short_row_defaults
              ("id,title,description,dueDate" +:+ String Js.LF "abc123,Fix truck 12")
              (Run.at_rest [Run.truck])) as (drafts & Hd & HF).
  { discriminate. }
  { intros ln i p Hln _.
    change (data_rows _) with ["abc123,Fix truck 12"] in Hln.
    apply list_elem_of_singleton in Hln as ->.
    change (splitCSVLine "abc123,Fix truck 12")
      with [JSON.stringify "abc123"; JSON.stringify "Fix truck 12"].
    destruct i as [|[|i]]; intros [= <-]; by eexists. }
  change (data_rows _) with ["abc123,Fix truck 12"] in HF.
  apply Forall2_cons_inv_l in HF as (draft & rest & Hblank & Hrest & ->).
  apply Forall2_nil_inv_l in Hrest as ->.
  exists draft. split; [exact Hd|].
  assert (draft !! "description" = Some (VStr "") /\ draft !! "dueDate" = Some (VStr ""))
    as [H2 H3].
  { split.
    - apply (Hblank 2%nat); [reflexivity|apply Nat.le_refl|discriminate].
    - apply (Hblank 3%nat); [reflexivity|apply Nat.le_succ_diag_r|discriminate]. }
  split; [|done].
  assert (importCSV ("id,title,description,dueDate" +:+ String Js.LF "abc123,Fix truck 12")
            (Run.at_rest [Run.truck])
          = Returns (Run.at_rest
                       [<["id" := VStr "abc123"]>
                          (<["title" := VStr "Fix truck 12"]>
                             (<["description" := VStr ""]>
                                (<["dueDate" := VStr ""]> ∅))); Run.truck])) as Hrun
    by reflexivity.
  rewrite Hrun in Hd. injection Hd as <-. reflexivity.
Defined.

(** C10, as stated, fails: a row with fewer fields than the header makes
    the import fail when one of the fields it does have is no JSON string
    body, here a backslash before a letter that starts no escape.  And a
    missing column named [__proto__] leaves no property in the draft. *)
Lemma import_short_row_can_throw :
  let hdr := "id,title,description" in
  let ln := "abc123,C:\Users" in
  length (splitCSVLine ln) = 2%nat
  /\ length (header_of hdr) = 3%nat
  /\ import_line (header_of hdr) ln = Throws SyntaxError
  /\ importCSV (hdr +:+ String Js.LF ln) (Run.at_rest [Run.truck]) = Throws SyntaxError
  /\ import_line (header_of "id,__proto__") "abc123" = Returns (<["id" := VStr "abc123"]> ∅).
Proof. cbv zeta. repeat split; reflexivity. Qed.

(* ================================================================== *)
(** * Export followed by import *)

Lemma append_cons c (a b : string) : String c a +:+ b = String c (a +:+ b).
Proof. reflexivity. Qed.

Lemma append_nil (b : string) : "" +:+ b = b.
Proof. reflexivity. Qed.

Lemma append_assoc (a b c : string) : (a +:+ b) +:+ c = a +:+ (b +:+ c).
Proof. induction a as [|x a IH]; [done|]. by rewrite !append_cons, IH. Qed.

Lemma append_empty_r (a : string) : a +:+ "" = a.
Proof. induction a as [|x a IH]; [done|]. by rewrite append_cons, IH. Qed.

Lemma quote_free_app a b :
  quote_free (a +:+ b) = quote_free a && quote_free b.
Proof.
  induction a as [|x a IH]; [done|].
  rewrite append_cons. simpl. rewrite IH. by rewrite andb_assoc.
Qed.

Lemma one_line_app a b : one_line (a +:+ b) = one_line a && one_line b.
Proof.
  induction a as [|x a IH]; [done|].
  rewrite append_cons. simpl. rewrite IH. by rewrite !andb_assoc.
Qed.

(** *** JSON.parse undoes JSON.stringify *)

Lemma parse_escape_char c rest :
  JSON.parse_chars (JSON.escape_char c +:+ rest) = JSON.pcons c (JSON.parse_chars rest).
Proof.
  destruct c as [[] [] [] [] [] [] [] []]; reflexivity.
Qed.

Lemma parse_chars_escape v :
  JSON.parse_chars (JSON.escape v +:+ Js.quote_str) = Returns v.
Proof.
  induction v as [|c v IH]; [done|].
  simpl JSON.escape. rewrite append_assoc, parse_escape_char, IH. done.
Qed.

(** For every string of the model, whatever it holds. *)
Lemma parse_stringify v : JSON.parse (JSON.stringify v) = Returns v.
Proof. apply parse_chars_escape. Qed.

Lemma escape_char_quote_free c :
  Js.is_char c Js.dquote = false -> quote_free (JSON.escape_char c) = true.
Proof.
  destruct c as [[] [] [] [] [] [] [] []]; intros H; try reflexivity; discriminate H.
Qed.

Lemma escape_quote_free v : quote_free v = true -> quote_free (JSON.escape v) = true.
Proof.
  induction v as [|c v IH]; [done|]. simpl.
  intros [Hc Hv]%andb_true_iff. apply negb_true_iff in Hc.
  rewrite quote_free_app, escape_char_quote_free, IH; done.
Qed.

Lemma escape_char_one_line c : one_line (JSON.escape_char c) = true.
Proof. destruct c as [[] [] [] [] [] [] [] []]; reflexivity. Qed.

Lemma escape_one_line v : one_line (JSON.escape v) = true.
Proof.
  induction v as [|c v IH]; [done|]. simpl.
  by rewrite one_line_app, escape_char_one_line, IH.
Qed.

Lemma stringify_one_line v : one_line (JSON.stringify v) = true.
Proof.
  unfold JSON.stringify. simpl. by rewrite one_line_app, escape_one_line.
Qed.

(** *** splitCSVLine on a row of quoted fields *)

(** Inside a quoted field every character but the quote is kept, the
    comma too. *)
Lemma scan_quoted body rest cur parts :
  quote_free body = true ->
  scan (body +:+ rest) cur true parts = scan rest (cur +:+ body) true parts.
Proof.
  revert cur. induction body as [|c body IH]; intros cur.
  - intros _. by rewrite append_nil, append_empty_r.
  - intros [Hc Hb]%andb_true_iff. apply negb_true_iff in Hc.
    rewrite append_cons. simpl scan. rewrite Hc, andb_false_r, IH by done.
    unfold Js.push. by rewrite append_assoc.
Qed.

Lemma scan_field v rest parts :
  quote_free v = true ->
  scan (JSON.stringify v +:+ rest) "" false parts
  = scan rest (JSON.escape v) false parts.
Proof.
  intros Hv. unfold JSON.stringify.
  rewrite append_cons, append_assoc. simpl scan.
  rewrite scan_quoted by by apply escape_quote_free.
  by rewrite append_nil.
Qed.

Lemma join_cons sep x y l :
  Js.join sep (x :: y :: l) = x +:+ sep +:+ Js.join sep (y :: l).
Proof. reflexivity. Qed.

Lemma scan_row vs parts :
  vs <> [] -> Forall (fun v => quote_free v = true) vs ->
  scan (Js.join "," (map JSON.stringify vs)) "" false parts
  = (parts ++ map JSON.escape vs)%list.
Proof.
  intros Hne Hq. revert parts.
  induction Hq as [|v vs Hv Hvs IH]; intros parts; [done|].
  destruct vs as [|v2 vs].
  - change (Js.join "," (map JSON.stringify [v])) with (JSON.stringify v).
    rewrite <- (append_empty_r (JSON.stringify v)).
    by rewrite scan_field.
  - change (map JSON.stringify (v :: v2 :: vs))
      with (JSON.stringify v :: JSON.stringify v2 :: map JSON.stringify vs).
    rewrite join_cons, scan_field by done.
    change ("," +:+ ?r) with (String Js.comma r). simpl scan.
    rewrite (IH ltac:(done)). simpl. by rewrite <- app_assoc.
Qed.

Lemma requote_escape v : requote (JSON.escape v) = JSON.stringify v.
Proof. unfold requote, JSON.stringify. by destruct (JSON.escape v). Qed.

(** Field boundaries: a row of quote-free values, joined by commas after
    [JSON.stringify], splits into exactly those literals. *)
Lemma splitCSVLine_row vs :
  vs <> [] -> Forall (fun v => quote_free v = true) vs ->
  splitCSVLine (Js.join "," (map JSON.stringify vs)) = map JSON.stringify vs.
Proof.
  intros Hne Hq. unfold splitCSVLine. rewrite scan_row by done. simpl.
  rewrite map_map. apply map_ext. intros v. apply requote_escape.
Qed.

Lemma part_or_empty_stringify parts i v :
  parts !! i = Some (JSON.stringify v) -> part_or_empty parts i = JSON.stringify v.
Proof. intros H. unfold part_or_empty. by rewrite H. Qed.

Lemma fill_stringified hs vs i o :
  length hs = length vs ->
  forall pre, length pre = i ->
  fill hs i (pre ++ map JSON.stringify vs) o
  = Returns (foldl (fun o hv => Obj.assign o hv.1 (VStr hv.2)) o (zip hs vs)).
Proof.
  revert vs i o. induction hs as [|h hs IH]; intros [|v vs] i o Hlen pre Hpre;
    simplify_eq/=; [done|].
  rewrite (part_or_empty_stringify _ _ v).
  2:{ rewrite lookup_app_r by lia. by rewrite Nat.sub_diag. }
  rewrite parse_stringify. simpl.
  rewrite (cons_middle (JSON.stringify v)), app_assoc.
  apply IH; [done|]. rewrite length_app. simpl. lia.
Qed.

(** *** The lines of an exported text *)

Lemma split_newlines_one_line x cur rest :
  one_line x = true ->
  Js.split_newlines cur (x +:+ rest) = Js.split_newlines (cur +:+ x) rest.
Proof.
  revert cur. induction x as [|c x IH]; intros cur.
  - intros _. by rewrite append_nil, append_empty_r.
  - intros [[Hlf Hcr]%andb_true_iff Hx]%andb_true_iff.
    apply negb_true_iff in Hlf, Hcr.
    rewrite append_cons. simpl Js.split_newlines. rewrite Hlf, Hcr.
    assert (Js.split_newlines (Js.push cur c) (x +:+ rest)
            = Js.split_newlines (cur +:+ String c x) rest) as Hgo.
    { rewrite IH by done. unfold Js.push. by rewrite append_assoc. }
    by destruct (x +:+ rest).
Qed.

Lemma split_newlines_LF cur rest :
  Js.split_newlines cur (String Js.LF rest) = cur :: Js.split_newlines "" rest.
Proof. reflexivity. Qed.

Lemma split_newlines_join x l cur :
  Forall (fun s => one_line s = true) (x :: l) ->
  Js.split_newlines cur (Js.join (String Js.LF "") (x :: l)) = (cur +:+ x) :: l.
Proof.
  revert x cur. induction l as [|y l IH]; intros x cur Hall.
  - change (Js.join _ [x]) with x. rewrite <- (append_empty_r x) at 1.
    rewrite split_newlines_one_line by by inversion Hall. done.
  - rewrite join_cons.
    rewrite split_newlines_one_line by by inversion Hall.
    change (String Js.LF "" +:+ ?r) with (String Js.LF r).
    rewrite split_newlines_LF, IH by by inversion Hall. done.
Qed.

Lemma export_row_fields t :
  export_row t = Js.join "," (map JSON.stringify (map (field t) header)).
Proof. reflexivity. Qed.

Lemma join_one_line sep l :
  one_line sep = true -> Forall (fun s => one_line s = true) l ->
  one_line (Js.join sep l) = true.
Proof.
  intros Hsep Hl. induction Hl as [|x l Hx Hl IH]; [done|].
  destruct l as [|y l]; [done|].
  by rewrite join_cons, !one_line_app, Hx, Hsep, IH.
Qed.

Lemma export_row_one_line t : one_line (export_row t) = true.
Proof.
  rewrite export_row_fields. apply join_one_line; [done|].
  apply Forall_forall. intros s [v [-> _]]%list_elem_of_fmap.
  apply stringify_one_line.
Qed.

Lemma export_row_nonempty t : Js.nonempty (export_row t) = true.
Proof. reflexivity. Qed.

Lemma filter_nonempty_all l :
  Forall (fun s => Js.nonempty s = true) l -> List.filter Js.nonempty l = l.
Proof.
  induction 1 as [|x l Hx Hl IH]; [done|]. simpl. by rewrite Hx, IH.
Qed.

Lemma lines_of_exportCSV ts :
  lines_of (exportCSV ts) = Js.join "," header :: map export_row ts.
Proof.
  unfold lines_of, exportCSV.
  rewrite split_newlines_join.
  - rewrite append_nil. apply filter_nonempty_all.
    constructor; [done|].
    apply Forall_forall. intros s [t [-> _]]%list_elem_of_fmap.
    apply export_row_nonempty.
  - constructor; [done|].
    apply Forall_forall. intros s [t [-> _]]%list_elem_of_fmap.
    apply export_row_one_line.
Qed.

Lemma header_of_exported : header_of (Js.join "," header) = header.
Proof. reflexivity. Qed.

(** *** Rows back to records *)

Lemma import_line_export_row t :
  quote_free_task t -> import_line header (export_row t) = Returns (exported t).
Proof.
  intros Hq. unfold import_line.
  rewrite export_row_fields, splitCSVLine_row.
  - rewrite (fill_stringified header (map (field t) header) 0 ∅ eq_refl [] eq_refl).
    reflexivity.
  - discriminate.
  - by apply Forall_fmap.
Qed.

Lemma traverse_import_rows ts :
  Forall quote_free_task ts ->
  traverse (import_line header) (map export_row ts) = Returns (map exported ts).
Proof.
  induction 1 as [|t ts Ht Hts IH]; [done|].
  simpl. rewrite import_line_export_row by done. simpl. by rewrite IH.
Qed.

Lemma exported_lookup t h :
  h ∈ header -> exported t !! h = Some (VStr (field t h)).
Proof.
  intros Hh. unfold header in Hh.
  repeat (apply elem_of_cons in Hh as [->|Hh]; [reflexivity|]).
  by apply elem_of_nil in Hh.
Qed.

Lemma exported_lookup_other t h : h ∉ header -> exported t !! h = None.
Proof.
  intros Hh. unfold exported, header in *. simpl.
  repeat (rewrite lookup_insert_ne; [|intros <-; apply Hh; set_solver]).
  apply lookup_empty.
Qed.

(** Export, then import in front of a collection. *)
Lemma importCSV_exportCSV (ts : list obj) (st : State) :
  ts <> [] ->
  Forall quote_free_task ts ->
  importCSV (exportCSV ts) st
  = Returns (mkState (map exported ts ++ tasks st) (showForm st) (editing st)
                     (alerts st) (uid_calls st) (now_calls st)).
Proof.
  intros Hne Hq. unfold importCSV. rewrite lines_of_exportCSV.
  destruct ts as [|t ts]; [done|].
  change (hd _ (_ :: _)) with (Js.join "," header).
  change (tl (?x :: ?l)) with l.
  rewrite header_of_exported, traverse_import_rows by done.
  reflexivity.
Qed.

Lemma field_of_string (t : obj) h s : t !! h = Some (VStr s) -> field t h = s.
Proof. intros H. unfold field, Obj.get. rewrite H. by destruct s. Qed.

Lemma exported_schema_record t : schema_record t -> exported t = t.
Proof.
  intros Ht. apply map_eq. intros k.
  destruct (decide (k ∈ header)) as [Hk|Hk].
  - rewrite exported_lookup by done.
    destruct (proj1 (Ht k) Hk) as [s Hs]. rewrite Hs.
    by rewrite (field_of_string t k s).
  - rewrite exported_lookup_other by done. symmetry. by apply Ht.
Qed.

(** Records of the task model without a double quote in them come back
    as they were, in front of the collection. *)
Lemma round_trip_schema_records (ts : list obj) (st : State) :
  ts <> [] ->
  Forall schema_record ts ->
  Forall quote_free_task ts ->
  importCSV (exportCSV ts) st
  = Returns (mkState (ts ++ tasks st) (showForm st) (editing st)
                     (alerts st) (uid_calls st) (now_calls st)).
Proof.
  intros Hne Hs Hq. rewrite importCSV_exportCSV by done.
  do 2 f_equal. f_equal.
  induction Hs as [|t ts Ht _ IH]; [done|].
  simpl. rewrite exported_schema_record by done. f_equal.
  destruct ts as [|t' ts']; [done|].
  apply IH; [discriminate|by inversion Hq].
Qed.

(** What the row parser does get right: the scan of [splitCSVLine] flips
    its quoted mode at every double quote and cuts at a comma only
    outside that mode; so for a collection in which no value holds a
    double quote (commas or not) every exported row splits into the nine
    literals that export wrote, and the import of the exported text puts
    the nine values back, in front of the collection. *)
Theorem quoted_fields_round_trip (ts : list obj) (st : State) :
  ts <> [] ->
  Forall quote_free_task ts ->
  (forall rest cur inQ parts,
      scan (String Js.dquote rest) cur inQ parts = scan rest cur (negb inQ) parts
      /\ scan (String Js.comma rest) cur true parts
         = scan rest (Js.push cur Js.comma) true parts
      /\ scan (String Js.comma rest) cur false parts
         = scan rest "" false (parts ++ [cur])%list)
  /\ (forall t, t ∈ ts ->
        splitCSVLine (export_row t) = map (fun h => JSON.stringify (field t h)) header)
  /\ importCSV (exportCSV ts) st
     = Returns (mkState (map exported ts ++ tasks st) (showForm st) (editing st)
                        (alerts st) (uid_calls st) (now_calls st))
  /\ (forall t h, h ∈ header -> Obj.get (exported t) h = VStr (field t h)).
Proof.
  intros Hne Hq. split; [done|]. split; [|split].
  - intros t Ht. rewrite export_row_fields, splitCSVLine_row.
    + by rewrite map_map.
    + discriminate.
    + apply Forall_fmap. by apply (proj1 (Forall_forall _ _) Hq).
  - by apply importCSV_exportCSV.
  - intros t h Hh. unfold Obj.get. by rewrite exported_lookup.
Qed.

Lemma quoted_fields_round_trip_witness :
  Obj.get Run.brakes "description" = VStr "Replace, then test"
  /\ importCSV (exportCSV [Run.brakes]) (Run.at_rest []) = Returns (Run.at_rest [Run.brakes]).
Proof.
  split; [reflexivity|].
  refine (eq_trans (proj1 (proj2 (proj2 (quoted_fields_round_trip [Run.brakes]
                                           (Run.at_rest []) _ _)))) _).
  - discriminate.
  - repeat constructor.
  - reflexivity.
Defined.

(** C8: quoted values with a comma in them, through export and import.
    The value of the scenario comes back when it is alone.  A value with
    a comma after a double quote of its own does not: export writes the
    quote as backslash and quote, the scan flips its mode on that quote
    as on any other, the comma is then outside the mode, the row splits
    into ten parts and [JSON.parse] throws on the third.  And the value
    of the scenario itself is lost when another row of the file holds a
    double quote: the import throws on that row and adds nothing. *)
Lemma quoted_comma_cut_after_inner_quote :
  field Run.brakes "description" = "Replace, then test"
  /\ importCSV (exportCSV [Run.brakes]) (Run.at_rest []) = Returns (Run.at_rest [Run.brakes])
  /\ field Run.both_pads "description"
     = "Replace " +:+ Js.quote_str +:+ "both, front" +:+ Js.quote_str +:+ " pads"
  /\ splitCSVLine (export_row Run.both_pads)
     = map requote
         ["abc123"; "Fix truck 12"; "Replace \both"; " front\ pads"; "Rami"; "High";
          "In Progress"; "2025-11-20"; "2025-11-11T08:00:00.000Z";
          "2025-11-11T09:00:00.000Z"]
  /\ importCSV (exportCSV [Run.both_pads]) (Run.at_rest []) = Throws SyntaxError
  /\ importCSV (exportCSV [Run.brakes; Run.inch_disc]) (Run.at_rest []) = Throws SyntaxError.
Proof. repeat split; reflexivity. Qed.

(** C2: the round trip on tasks whose description holds a double quote.
    Export writes the quote as backslash, quote; the scan of
    [splitCSVLine] drops the quote, keeps the backslash and flips its
    mode.  With [inch_disc] the backslash then stands before a space and
    [JSON.parse] throws: nothing is imported.  With [inch_bolts] it
    stands before a [b] and reads as a backspace, the mode stays flipped
    to the end of the row, and the record that comes back has the
    remaining six values inside its description. *)
Theorem round_trip_breaks_on_quote :
  quote_free (field Run.inch_disc "description") = false
  /\ importCSV (exportCSV [Run.inch_disc]) (Run.at_rest []) = Throws SyntaxError
  /\ quote_free (field Run.inch_bolts "description") = false
  /\ exists st',
       importCSV (exportCSV [Run.inch_bolts]) (Run.at_rest []) = Returns st'
       /\ map (fun t => map (Obj.get t) header) (tasks st')
          = [[VStr "abc123"; VStr "Fix truck 12";
              VStr ("Use 6" +:+ String "008"
                    "olts,Rami,High,In Progress,2025-11-20,2025-11-11T08:00:00.000Z,2025-11-11T09:00:00.000Z");
              VStr ""; VStr ""; VStr ""; VStr ""; VStr ""; VStr ""]].
Proof.
  split; [reflexivity|]. split; [by vm_compute|]. split; [reflexivity|].
  eexists. split; [reflexivity|]. by vm_compute.
Qed.

(* ================================================================== *)
(** * The sort of the derived view *)

Section SortFacts.

Context {A : Type}.
Variable comparefn : A -> A -> Z.

Lemma insert_pivot_perm sorted pivot :
  insert_pivot comparefn sorted pivot ≡ₚ pivot :: sorted.
Proof.
  unfold insert_pivot.
  rewrite <- Permutation_middle. by rewrite take_drop.
Qed.

Lemma fold_insert_perm rest run :
  fold_left (insert_pivot comparefn) rest run ≡ₚ run ++ rest.
Proof.
  revert run. induction rest as [|p rest IH]; intros run; simpl.
  - by rewrite app_nil_r.
  - rewrite IH, insert_pivot_perm. by rewrite <- Permutation_middle.
Qed.

Lemma count_and_make_run_perm a run rest :
  count_and_make_run comparefn a = (run, rest) -> run ++ rest ≡ₚ a.
Proof.
  unfold count_and_make_run.
  destruct a as [|x0 [|x1 a]].
  { by intros [= <- <-]. }
  { by intros [= <- <-]. }
  set (n := S (S _)). generalize n. clear n. intros n.
  set (whole := x0 :: x1 :: a). generalize whole. clear. intros whole.
  destruct (comparefn x1 x0 <? 0)%Z; intros [= <- <-].
  - by rewrite reverse_Permutation, take_drop.
  - by rewrite take_drop.
Qed.

(** The result holds the elements of the array, each as often as before. *)
Lemma sort_perm a : sort comparefn a ≡ₚ a.
Proof.
  unfold sort. destruct (length a <? 2)%nat; [done|].
  destruct (count_and_make_run comparefn a) as [run rest] eqn:E.
  rewrite fold_insert_perm. by apply count_and_make_run_perm.
Qed.

(** An order the comparator answers for: a negative result puts the first
    argument first, any other result the second. *)
Variable le : relation A.
Context `{!Transitive le}.
Hypothesis comparefn_neg : forall a b, (comparefn a b < 0)%Z -> le a b.
Hypothesis comparefn_nonneg : forall a b, (0 <= comparefn a b)%Z -> le b a.

Lemma run_tail_ascending prev rest :
  Sorted le (prev :: take (run_tail comparefn false prev rest) rest).
Proof.
  revert prev. induction rest as [|cur rest IH]; intros prev; simpl.
  { repeat constructor. }
  destruct (comparefn cur prev <? 0)%Z eqn:E; simpl.
  { repeat constructor. }
  constructor; [apply IH|]. constructor.
  apply comparefn_nonneg. lia.
Qed.

Lemma run_tail_descending prev rest :
  Sorted (flip le) (prev :: take (run_tail comparefn true prev rest) rest).
Proof.
  revert prev. induction rest as [|cur rest IH]; intros prev; simpl.
  { repeat constructor. }
  destruct (0 <=? comparefn cur prev)%Z eqn:E; simpl.
  { repeat constructor. }
  constructor; [apply IH|]. constructor.
  apply comparefn_neg. lia.
Qed.

Lemma count_and_make_run_sorted a run rest :
  count_and_make_run comparefn a = (run, rest) -> StronglySorted le run.
Proof.
  unfold count_and_make_run.
  destruct a as [|x0 [|x1 a]].
  { intros [= <- <-]. constructor. }
  { intros [= <- <-]. repeat constructor. }
  destruct (comparefn x1 x0 <? 0)%Z eqn:E; intros [= <- <-];
    apply Sorted_StronglySorted; [done| |done|].
  - apply (Sorted_reverse (flip le)). simpl.
    constructor; [apply run_tail_descending|].
    constructor. apply comparefn_neg. lia.
  - simpl. constructor; [apply run_tail_ascending|].
    constructor. apply comparefn_nonneg. lia.
Qed.

(** The search of BinaryInsertionSort in a sorted prefix: everything
    before the place found goes before the pivot, everything from it on
    goes after. *)
Lemma search_spec fuel pivot a left right :
  StronglySorted le a ->
  (left <= right <= length a)%nat -> (right - left <= fuel)%nat ->
  Forall (fun y => le y pivot) (take left a) ->
  Forall (le pivot) (drop right a) ->
  Forall (fun y => le y pivot) (take (search comparefn fuel pivot a left right) a)
  /\ Forall (le pivot) (drop (search comparefn fuel pivot a left right) a).
Proof.
  intros Hsorted. revert left right.
  induction fuel as [|fuel IH]; intros left right Hrange Hfuel Hl Hr; cbn [search].
  { by replace right with left in Hr by lia. }
  destruct (left <? right)%nat eqn:Hlt.
  2:{ apply Nat.ltb_ge in Hlt. by replace right with left in Hr by lia. }
  apply Nat.ltb_lt in Hlt.
  assert ((right - left) / 2 < right - left)%nat as Hhalf
    by (apply Nat.div_lt; lia).
  set (mid := (left + (right - left) / 2)%nat) in *.
  assert (left <= mid < right)%nat as Hmid by (unfold mid; lia).
  destruct (lookup_lt_is_Some_2 a mid) as [y Hy]; [lia|].
  rewrite Hy.
  assert (a = (take mid a ++ y :: drop (S mid) a)%list) as Hsplit.
  { rewrite <- (take_drop mid a) at 1. f_equal. by apply drop_S. }
  rewrite Hsplit in Hsorted.
  apply StronglySorted_app in Hsorted as (Hcross & _ & Htail).
  apply StronglySorted_cons in Htail as [Htail _].
  destruct (comparefn pivot y <? 0)%Z eqn:E.
  - apply IH; [lia|lia|done|].
    rewrite (drop_S _ _ _ Hy). constructor; [apply comparefn_neg; lia|].
    eapply Forall_impl; [exact Htail|].
    intros z Hz. simpl in Hz. etrans; [|exact Hz]. apply comparefn_neg. lia.
  - apply IH; [lia|lia| |done].
    rewrite (take_S_r _ _ _ Hy). apply Forall_app. split.
    + apply Forall_forall. intros z Hz. etrans.
      * apply (Hcross z y Hz). by left.
      * apply comparefn_nonneg. lia.
    + constructor; [apply comparefn_nonneg; lia|constructor].
Qed.

Lemma insert_pivot_sorted sorted pivot :
  StronglySorted le sorted -> StronglySorted le (insert_pivot comparefn sorted pivot).
Proof.
  intros Hs. unfold insert_pivot.
  destruct (search_spec (length sorted) pivot sorted 0 (length sorted) Hs)
    as [Hbefore Hafter]; [lia|lia|by rewrite take_0|by rewrite drop_all|].
  set (p := search comparefn _ _ _ _ _) in *.
  rewrite <- (take_drop p sorted) in Hs.
  apply StronglySorted_app in Hs as (Hcross & Hs1 & Hs2).
  apply StronglySorted_app_2; [|done|by apply StronglySorted_cons].
  intros x1 x2 Hx1 [->|Hx2]%elem_of_cons.
  - by apply (proj1 (Forall_forall _ _) Hbefore).
  - by apply Hcross.
Qed.

Lemma fold_insert_sorted rest run :
  StronglySorted le run ->
  StronglySorted le (fold_left (insert_pivot comparefn) rest run).
Proof.
  revert run. induction rest as [|p rest IH]; intros run Hrun; simpl; [done|].
  apply IH. by apply insert_pivot_sorted.
Qed.

(** The result is in order, whatever the comparator says of equal keys. *)
Lemma sort_sorted a : StronglySorted le (sort comparefn a).
Proof.
  unfold sort. destruct (length a <? 2)%nat eqn:E.
  - apply Nat.ltb_lt in E. destruct a as [|x [|y a]]; simpl in E; try lia;
      repeat constructor.
  - destruct (count_and_make_run comparefn a) as [run rest] eqn:Erun.
    apply fold_insert_sorted. by eapply count_and_make_run_sorted.
Qed.

End SortFacts.

Lemma compare_refl s : String.compare s s = Eq.
Proof.
  induction s as [|c s IH]; simpl; [done|].
  unfold Ascii.compare. by rewrite N.compare_refl.
Qed.

Lemma gt_false_le a b : Js.gt a b = false -> String.le a b.
Proof.
  unfold Js.gt, String.le, String.leb. by destruct (String.compare a b).
Qed.

Lemma gt_true_le a b : Js.gt a b = true -> String.le b a.
Proof.
  unfold Js.gt, String.le, String.leb. rewrite (String.compare_antisym a b).
  by destruct (String.compare b a).
Qed.

Lemma gt_true_not_le a b : Js.gt a b = true -> ~ String.le a b.
Proof.
  unfold Js.gt, String.le, String.leb.
  destruct (String.compare a b); simpl; intros H; try discriminate H.
  intros [].
Qed.

#[local] Instance due_le_trans : Transitive due_le.
Proof. intros a b c. unfold due_le. apply transitivity. Qed.

Lemma dueDate_cmp_neg a b : (dueDate_cmp a b < 0)%Z -> due_le a b.
Proof.
  unfold dueDate_cmp, due_le, due_key.
  destruct (Js.gt _ _) eqn:E; [lia|]. intros _. by apply gt_false_le.
Qed.

Lemma dueDate_cmp_nonneg a b : (0 <= dueDate_cmp a b)%Z -> due_le b a.
Proof.
  unfold dueDate_cmp, due_le, due_key.
  destruct (Js.gt _ _) eqn:E; [|lia]. intros _. by apply gt_true_le.
Qed.

Lemma due_key_undated t :
  Obj.truthy (Obj.get t "dueDate") = false -> due_key t = "9999".
Proof.
  unfold due_key. by destruct (Obj.get t "dueDate") as [|[|c s]].
Qed.

Lemma StronglySorted_lookup_lt {A} (R : relation A) l i j x y :
  StronglySorted R l -> l !! i = Some x -> l !! j = Some y -> (i < j)%nat -> R x y.
Proof.
  intros Hs. revert i j. induction Hs as [|z l Hs IH Hz]; intros i j Hi Hj Hlt; [done|].
  destruct j as [|j]; [lia|]. destruct i as [|i]; simpl in *.
  - injection Hi as ->. apply (proj1 (Forall_forall _ _) Hz).
    by eapply list_elem_of_lookup_2.
  - apply (IH i j); [done..|lia].
Qed.

Lemma sorted_by_dueDate result : sorted_by "dueDate" result = sort dueDate_cmp result.
Proof. reflexivity. Qed.

Lemma visibleTasks_sorted_by ts q fs fp sortBy view :
  visibleTasks ts q fs fp sortBy = Returns view ->
  exists result,
    filtered ts q fs fp = Returns result /\ view = sorted_by sortBy result.
Proof.
  unfold visibleTasks. destruct (filtered ts q fs fp) as [r| |]; simpl; [|done..].
  intros [= <-]. by exists r.
Qed.

(** The view is produced whenever every task has a title. *)
Lemma filterM_returns {A : Type} (f : A -> outcome bool) l :
  Forall (fun x => exists b, f x = Returns b) l ->
  exists r, filterM f l = Returns r.
Proof.
  induction 1 as [|x l [b Hb] _ [r Hr]]; simpl; [by eexists|].
  rewrite Hb, Hr. simpl. by eexists.
Qed.

Lemma visibleTasks_returns ts q fs fp sortBy :
  Forall (fun t => exists s, Obj.get t "title" = VStr s) ts ->
  exists view, visibleTasks ts q fs fp sortBy = Returns view.
Proof.
  intros Ht. unfold visibleTasks, filtered.
  destruct (Js.nonempty (Js.trim q)).
  - destruct (filterM_returns (matches (Js.toLowerCase q)) ts) as [r Hr].
    { eapply Forall_impl; [exact Ht|]. intros t [s Hs]. unfold matches.
      rewrite Hs. by eexists. }
    rewrite Hr. simpl. by eexists.
  - simpl. by eexists.
Qed.

(** With no search text the view is always produced. *)
Lemma visibleTasks_unfiltered ts sortBy :
  visibleTasks ts "" "All" "All" sortBy = Returns (sorted_by sortBy ts).
Proof. reflexivity. Qed.

(** C7 (as the code has it): sorted by due date, the view holds the
    filtered tasks in ascending order of their key, the due date or, for
    a task without one, the string 9999.  So a task without a due date
    comes after every task whose due date is below 9999; and the tasks
    A, B, C of the scenario come out as C, A, B. *)
Theorem dueDate_view_order (ts : list obj) (query filterStatus filterPriority : string)
    (view : list obj) :
  visibleTasks ts query filterStatus filterPriority "dueDate" = Returns view ->
  StronglySorted due_le view
  /\ (exists result,
        filtered ts query filterStatus filterPriority = Returns result
        /\ view ≡ₚ result)
  /\ (forall i j x y,
        view !! i = Some x -> view !! j = Some y ->
        Obj.truthy (Obj.get x "dueDate") = false ->
        Js.gt "9999" (due_key y) = true ->
        (j < i)%nat)
  /\ visibleTasks [Run.A; Run.B; Run.C] "" "All" "All" "dueDate"
     = Returns [Run.C; Run.A; Run.B].
Proof.
  intros Hview.
  destruct (visibleTasks_sorted_by _ _ _ _ _ _ Hview) as (result & Hres & ->).
  rewrite sorted_by_dueDate.
  assert (StronglySorted due_le (sort dueDate_cmp result)) as Hsorted.
  { apply sort_sorted; [apply _|apply dueDate_cmp_neg|apply dueDate_cmp_nonneg]. }
  split; [done|]. split; [|split; [|reflexivity]].
  - exists result. split; [done|]. apply sort_perm.
  - intros i j x y Hi Hj Hx Hy.
    destruct (decide (j < i)%nat) as [|Hge]; [done|]. exfalso.
    destruct (decide (i = j)) as [->|Hne].
    + rewrite Hi in Hj. injection Hj as <-.
      rewrite (due_key_undated x Hx) in Hy. done.
    + assert (due_le x y) as Hle.
      { apply (StronglySorted_lookup_lt due_le _ i j x y Hsorted Hi Hj). lia. }
      unfold due_le in Hle. rewrite (due_key_undated x Hx) in Hle.
      by apply (gt_true_not_le _ _ Hy).
Qed.

Lemma dueDate_view_order_witness :
  visibleTasks [Run.B; Run.A; Run.C; Run.P1] "Task" "Todo" "Medium" "dueDate"
  = Returns [Run.C; Run.A; Run.B]
  /\ StronglySorted due_le [Run.C; Run.A; Run.B].
Proof.
  split; [reflexivity|].
  exact (proj1 (dueDate_view_order [Run.B; Run.A; Run.C; Run.P1] "Task" "Todo" "Medium"
                  [Run.C; Run.A; Run.B] eq_refl)).
Defined.

(** C7, as stated, fails: a task due in the year 9999 has a key above the
    string 9999, and the task without a due date goes before it. *)
Lemma undated_before_year_9999 :
  Obj.truthy (Obj.get Run.Y "dueDate") = true
  /\ Obj.truthy (Obj.get Run.B "dueDate") = false
  /\ visibleTasks [Run.Y; Run.B] "" "All" "All" "dueDate" = Returns [Run.B; Run.Y]
  /\ visibleTasks [Run.B; Run.Y] "" "All" "All" "dueDate" = Returns [Run.B; Run.Y].
Proof. done. Qed.

Lemma dueDate_cmp_tie a b : due_key a = due_key b -> dueDate_cmp a b = (-1)%Z.
Proof.
  intros Hab. unfold dueDate_cmp. fold (due_key a) (due_key b). rewrite Hab.
  unfold Js.gt. by rewrite compare_refl.
Qed.

(** C3: the comparator of the sort by due date answers -1 for two tasks
    with the same key, whichever comes first; the sort takes two such
    tasks for a descending run and swaps them.  On the two sample tasks,
    neither with a due date, the view shows them in the opposite order,
    and sorting that view again gives yet another order.  The comparator
    of the sort by priority answers 0 for equal ranks and leaves such
    tasks as they stand. *)
Theorem dueDate_sort_reverses_ties (uid_at now_at : nat -> string) :
  let ts := sampleTasks uid_at now_at 0 0 in
  (forall a b, due_key a = due_key b ->
     dueDate_cmp a b = (-1)%Z /\ dueDate_cmp b a = (-1)%Z
     /\ sorted_by "dueDate" [a; b] = [b; a])
  /\ visibleTasks ts "" "All" "All" "dueDate" = Returns (reverse ts)
  /\ sorted_by "dueDate" (reverse ts) = ts
  /\ priority_cmp Run.P1 Run.P2 = 0%Z
  /\ visibleTasks [Run.P1; Run.P2] "" "All" "All" "priority" = Returns [Run.P1; Run.P2]
  /\ visibleTasks [Run.P1; Run.P2] "" "All" "All" "dueDate" = Returns [Run.P2; Run.P1].
Proof.
  cbv zeta. split; [|done].
  intros a b Hab.
  assert (dueDate_cmp b a = (-1)%Z) as Hba by by apply dueDate_cmp_tie.
  split; [by apply dueDate_cmp_tie|]. split; [done|].
  rewrite sorted_by_dueDate. unfold sort, count_and_make_run. simpl.
  by rewrite Hba.
Qed.

(* ================================================================== *)
(** * Further properties of the store *)

Lemma trimEnd_idem s : Js.trimEnd (Js.trimEnd s) = Js.trimEnd s.
Proof.
  induction s as [|c s IH]; [done|]. simpl.
  destruct (Js.trimEnd s) as [|d r] eqn:E.
  - destruct (Js.is_white c) eqn:Hc; [done|]. simpl. by rewrite Hc.
  - simpl in *. rewrite IH. done.
Qed.

Lemma trimEnd_head c s :
  Js.is_white c = false -> exists r, Js.trimEnd (String c s) = String c r.
Proof.
  intros Hc. simpl. destruct (Js.trimEnd s); [rewrite Hc|]; by eexists.
Qed.

Lemma trimStart_head s :
  Js.trimStart s = "" \/ exists c r, Js.trimStart s = String c r /\ Js.is_white c = false.
Proof.
  induction s as [|c s IH]; [by left|]. simpl.
  destruct (Js.is_white c) eqn:Hc; [done|]. right. by exists c, s.
Qed.

(** [trim] leaves a trimmed string as it is. *)
Lemma trim_idem s : Js.trim (Js.trim s) = Js.trim s.
Proof.
  unfold Js.trim at 2 3.
  destruct (trimStart_head s) as [->|(c & r & -> & Hc)]; [done|].
  destruct (trimEnd_head c r Hc) as [r' Hr]. unfold Js.trim.
  rewrite Hr. simpl Js.trimStart. rewrite Hc. rewrite <- Hr. apply trimEnd_idem.
Qed.

Lemma blank_false_trim s : blank s = false -> Js.trim s <> "".
Proof. intros H Ht. apply trim_empty_iff in Ht. congruence. Qed.

Section StoreMore.

Variable uid_at : nat -> string.
Variable now_at : nat -> string.

Local Abbreviation upsert' := (upsertTask uid_at now_at).
Local Abbreviation toggle := (toggleDone now_at).
Local Abbreviation toggled := (fun x m => toggled_at (now_at m) x).

Lemma toggleDone_tasks id st :
  tasks (toggle id st) = (toggle_matching now_at id (tasks st) (now_calls st)).1.
Proof. unfold toggleDone. by destruct (toggle_matching _ _ _ _). Qed.

Lemma toggle_matching_lookup id s n i x :
  s !! i = Some x ->
  exists m,
    (toggle_matching now_at id s n).1 !! i
    = Some (if decide (Obj.get x "id" = id) then toggled x m else x).
Proof.
  revert n i. induction s as [|y s IH]; intros n i; [done|].
  destruct i as [|i]; simpl.
  - intros [= ->]. case_decide.
    + exists n. by destruct (toggle_matching _ _ _ _).
    + exists n. by destruct (toggle_matching _ _ _ _).
  - intros Hi. destruct (decide (Obj.get y "id" = id)).
    + destruct (IH (S n) i Hi) as [m Hm]. exists m.
      destruct (toggle_matching _ _ _ (S n)); simpl in *. exact Hm.
    + destruct (IH n i Hi) as [m Hm]. exists m.
      destruct (toggle_matching _ _ _ n); simpl in *. exact Hm.
Qed.

Lemma toggle_matching_length id s n :
  length (toggle_matching now_at id s n).1 = length s.
Proof.
  revert n. induction s as [|x s IH]; intros n; simpl; [done|].
  case_decide.
  - specialize (IH (S n)). destruct (toggle_matching _ _ _ (S n)); simpl in *. lia.
  - specialize (IH n). destruct (toggle_matching _ _ _ n); simpl in *. lia.
Qed.

Lemma toggled_id x m : Obj.get (toggled x m) "id" = Obj.get x "id".
Proof. unfold toggled_at, Obj.get. by rewrite !lookup_insert_ne by done. Qed.

Lemma toggled_status x m :
  Obj.get (toggled x m) "status"
  = VStr (if decide (Obj.get x "status" = VStr "Done") then "Todo" else "Done").
Proof.
  unfold toggled_at, Obj.get. rewrite lookup_insert_ne by done.
  by rewrite lookup_insert_eq.
Qed.

Lemma toggled_other x m k :
  k <> "status" -> k <> "updatedAt" -> toggled x m !! k = x !! k.
Proof. intros H1 H2. unfold toggled_at. by rewrite !lookup_insert_ne by done. Qed.

(** The same with the call of [now()] named. *)
Lemma toggle_matching_lookup_at id s n i x :
  s !! i = Some x ->
  (toggle_matching now_at id s n).1 !! i
  = Some (if decide (Obj.get x "id" = id)
          then toggled x (n + hits_before id s i)%nat
          else x).
Proof.
  revert n i. induction s as [|y s IH]; intros n i; [done|].
  destruct i as [|i]; simpl.
  - intros [= ->]. rewrite hits_before_0, Nat.add_0_r.
    case_decide; by destruct (toggle_matching _ _ _ _).
  - intros Hi. destruct (decide (Obj.get y "id" = id)).
    + rewrite hits_before_cons_hit by done.
      specialize (IH (S n) i Hi). destruct (toggle_matching _ _ _ (S n)); simpl in *.
      rewrite IH, Nat.add_succ_r. reflexivity.
    + rewrite hits_before_cons_miss by done.
      specialize (IH n i Hi). by destruct (toggle_matching _ _ _ n).
Qed.

Lemma toggle_matching_calls id s n :
  (toggle_matching now_at id s n).2 = (n + hits_before id s (length s))%nat.
Proof.
  revert n. induction s as [|y s IH]; intros n; simpl.
  { by rewrite hits_before_0, Nat.add_0_r. }
  case_decide.
  - rewrite hits_before_cons_hit by done.
    specialize (IH (S n)). destruct (toggle_matching _ _ _ (S n)); simpl in *. lia.
  - rewrite hits_before_cons_miss by done.
    specialize (IH n). by destruct (toggle_matching _ _ _ n).
Qed.

Lemma toggleDone_calls id st :
  now_calls (toggle id st)
  = (now_calls st + hits_before id (tasks st) (length (tasks st)))%nat.
Proof.
  rewrite <- toggle_matching_calls. unfold toggleDone.
  by destruct (toggle_matching _ _ _ _).
Qed.

(** [toggleDone] keeps the number and the places of the records; a record
    with another id stays as it is; a record with the id gets the status
    Todo if it was Done and Done otherwise, keeps every other property
    but [updatedAt], and gets as [updatedAt] what [now()] returns at the
    call made for it: a call of this toggle, the one after the calls made
    for the records with the id that stand before it. *)
Theorem toggleDone_frame (id : value) (st : State) (i : nat) (x : obj) :
  tasks st !! i = Some x ->
  length (tasks (toggle id st)) = length (tasks st)
  /\ exists x',
       tasks (toggle id st) !! i = Some x'
       /\ (Obj.get x "id" <> id -> x' = x)
       /\ (Obj.get x "id" = id ->
           Obj.get x' "status"
           = VStr (if decide (Obj.get x "status" = VStr "Done") then "Todo" else "Done")
           /\ x' !! "updatedAt"
              = Some (VStr (now_at (now_calls st + hits_before id (tasks st) i)))
           /\ (now_calls st + hits_before id (tasks st) i < now_calls (toggle id st))%nat
           /\ forall k, k <> "status" -> k <> "updatedAt" -> x' !! k = x !! k).
Proof.
  intros Hx. rewrite toggleDone_tasks. split; [apply toggle_matching_length|].
  pose proof (toggle_matching_lookup_at id (tasks st) (now_calls st) i x Hx) as Hm.
  eexists. split; [exact Hm|]. split.
  - intros Hne. by rewrite decide_False.
  - intros Heq. rewrite decide_True by done. split; [apply toggled_status|]. split; [|split].
    + unfold toggled_at. apply lookup_insert_eq.
    + rewrite toggleDone_calls. apply Nat.add_lt_mono_l. by eapply hits_before_lt.
    + intros k. apply toggled_other.
Qed.

(** Two clicks on Toggle Done: a task that was Done is Done again, any
    other task (Todo, In Progress, Waiting, or with no status) ends as
    Todo; but for [updatedAt] nothing else changes. *)
Theorem toggleDone_twice (id : value) (st : State) (i : nat) (x : obj) :
  tasks st !! i = Some x ->
  Obj.get x "id" = id ->
  exists x'',
    tasks (toggle id (toggle id st)) !! i = Some x''
    /\ Obj.get x'' "status" = VStr (toggled_twice (Obj.get x "status"))
    /\ forall k, k <> "status" -> k <> "updatedAt" -> x'' !! k = x !! k.
Proof.
  intros Hx Hid.
  destruct (toggle_matching_lookup id (tasks st) (now_calls st) i x Hx) as [m Hm].
  rewrite <- toggleDone_tasks, decide_True in Hm by done.
  destruct (toggle_matching_lookup id (tasks (toggle id st)) (now_calls (toggle id st))
              i (toggled x m) Hm) as [m' Hm'].
  rewrite <- toggleDone_tasks, decide_True in Hm' by (by rewrite toggled_id).
  eexists. split; [exact Hm'|]. split.
  - rewrite !toggled_status. unfold toggled_twice.
    destruct (decide (Obj.get x "status" = VStr "Done")); reflexivity.
  - intros k H1 H2. by rewrite !toggled_other.
Qed.

(** A confirmed delete by the id of a record without one. *)
Lemma removeTask_undefined st :
  tasks (removeTask true VUndef st)
  = List.filter (fun t => negb (bool_decide (Obj.get t "id" = VUndef))) (tasks st).
Proof. reflexivity. Qed.

(** Delete after two creates through the form: the click on the newer
    task removes it, the older one and every earlier record without an
    id. *)
Theorem delete_removes_all_form_created (f1 f2 : TaskForm.Form) (st : State) :
  TaskForm.initial f1 = None -> TaskForm.initial f2 = None ->
  blank (TaskForm.title f1) = false -> blank (TaskForm.title f2) = false ->
  let st2 := TaskForm.save upsert' f2 (TaskForm.save upsert' f1 st) in
  exists t1 t2,
    tasks st2 = t2 :: t1 :: tasks st
    /\ tasks (removeTask true (Obj.get t2 "id") st2)
       = List.filter (fun t => negb (bool_decide (Obj.get t "id" = VUndef))) (tasks st)
    /\ tasks (removeTask false (Obj.get t2 "id") st2) = tasks st2.
Proof.
  intros Hi1 Hi2 Hb1 Hb2 st2.
  destruct (form_create_has_undefined_id uid_at now_at f1 st Hi1 Hb1) as (t1 & Ht1 & Hid1 & _).
  destruct (form_create_has_undefined_id uid_at now_at f2 (TaskForm.save upsert' f1 st)
              Hi2 Hb2) as (t2 & Ht2 & Hid2 & _).
  assert (Obj.get t1 "id" = VUndef) as Hg1 by (unfold Obj.get; by rewrite Hid1).
  assert (Obj.get t2 "id" = VUndef) as Hg2 by (unfold Obj.get; by rewrite Hid2).
  exists t1, t2. subst st2. split; [by rewrite Ht2, Ht1|]. split; [|reflexivity].
  rewrite Hg2, removeTask_undefined, Ht2, Ht1. simpl.
  by rewrite !bool_decide_eq_true_2 by done.
Qed.

End StoreMore.

Lemma toggleDone_frame_witness :
  exists x',
    tasks (toggleDone Run.clock (VStr "abc123") (Run.at_rest [Run.truck; Run.A; Run.truck]))
      !! 2%nat = Some x'
    /\ Obj.get x' "status" = VStr "Done"
    /\ x' !! "updatedAt" = Some (VStr (Run.clock 1))
    /\ x' !! "title" = Some (VStr "Fix truck 12").
Proof.
  destruct (toggleDone_frame Run.clock (VStr "abc123")
              (Run.at_rest [Run.truck; Run.A; Run.truck]) 2 Run.truck eq_refl)
    as (_ & x' & H0 & _ & H).
  destruct (H eq_refl) as (Hs & Hu & _ & Hk).
  exists x'. split; [exact H0|]. split; [exact Hs|]. split; [exact Hu|].
  rewrite Hk; [reflexivity|discriminate|discriminate].
Defined.

Lemma toggleDone_twice_witness :
  exists x'',
    tasks (toggleDone Run.clock (VStr "abc123")
             (toggleDone Run.clock (VStr "abc123") (Run.at_rest [Run.truck]))) !! 0%nat
    = Some x''
    /\ Obj.get x'' "status" = VStr "Todo"
    /\ x'' !! "title" = Some (VStr "Fix truck 12").
Proof.
  destruct (toggleDone_twice Run.clock (VStr "abc123") (Run.at_rest [Run.truck]) 0 Run.truck
              eq_refl eq_refl) as (x'' & H0 & Hs & Hk).
  exists x''. split; [exact H0|]. split; [exact Hs|].
  rewrite Hk; [reflexivity|discriminate|discriminate].
Defined.

Lemma delete_removes_all_form_created_witness :
  let st2 := TaskForm.save (upsertTask Run.uids Run.clock) (Run.typed "Second")
               (TaskForm.save (upsertTask Run.uids Run.clock) (Run.typed "First")
                  (Run.at_rest [Run.truck])) in
  exists t1 t2,
    tasks st2 = [t2; t1; Run.truck]
    /\ tasks (removeTask true (Obj.get t2 "id") st2) = [Run.truck].
Proof.
  cbv zeta.
  destruct (delete_removes_all_form_created Run.uids Run.clock (Run.typed "First")
              (Run.typed "Second") (Run.at_rest [Run.truck]) eq_refl eq_refl eq_refl eq_refl)
    as (t1 & t2 & H2 & Hr & _).
  exists t1, t2. split; [exact H2|]. rewrite Hr. reflexivity.
Defined.

Section StoreForms.

Variable uid_at : nat -> string.
Variable now_at : nat -> string.

Local Abbreviation upsert'' := (upsertTask uid_at now_at).

Lemma payload_title f : Obj.get (TaskForm.payload f) "title" = VStr (Js.trim (TaskForm.title f)).
Proof. reflexivity. Qed.

Lemma payload_id f :
  Obj.get (TaskForm.payload f) "id" = TaskForm.initial_get (TaskForm.initial f) "id".
Proof. reflexivity. Qed.

Lemma or_else_string s : Obj.or_else (VStr s) "" = s.
Proof. by destruct s. Qed.

Lemma truthy_nonempty s : s <> "" -> Obj.truthy (VStr s) = true.
Proof. by destruct s. Qed.

Lemma save_nonblank f st :
  blank (TaskForm.title f) = false ->
  TaskForm.save upsert'' f st = upsert'' (TaskForm.payload f) st
  /\ Obj.truthy (Obj.get (TaskForm.payload f) "title") = true.
Proof.
  intros Hb. pose proof (blank_false_trim _ Hb) as Hne.
  unfold TaskForm.save. rewrite payload_title.
  destruct (Js.trim (TaskForm.title f)); done.
Qed.

(** Edit and Save on a record without an id (every record created
    through the form is one) whose title is not blank: the save takes the
    create branch, a new record is put in front and the edited record
    stays as it was. *)
Theorem edit_of_idless_task_adds_record (t : obj) (st : State) :
  idless t = true ->
  blank (Obj.or_else (Obj.get t "title") "") = false ->
  let st1 := openEdit t st in
  exists added,
    tasks (TaskForm.save upsert'' (shownForm st1) st1) = added :: tasks st
    /\ Obj.get added "title" = VStr (Js.trim (Obj.or_else (Obj.get t "title") ""))
    /\ showForm (TaskForm.save upsert'' (shownForm st1) st1) = false.
Proof.
  intros Hid Hb st1.
  destruct (save_nonblank (shownForm st1) st1) as [-> Ht]; [exact Hb|].
  assert (Obj.truthy (Obj.get (TaskForm.payload (shownForm st1)) "id") = false) as Hi.
  { rewrite payload_id. simpl. unfold idless in Hid. by apply negb_true_iff in Hid. }
  exists (new_task uid_at now_at (TaskForm.payload (shownForm st1)) st1).
  unfold upsertTask. rewrite Ht, Hi. simpl. split; [done|]. split; [|done].
  unfold Obj.get. erewrite new_task_takes_payload; [reflexivity|reflexivity].
Qed.

(** What the form holds when it opens on a record the form has left. *)
Lemma open_form_shaped t ti d a p s dd :
  t !! "title" = Some (VStr ti) -> t !! "description" = Some (VStr d) ->
  t !! "assignee" = Some (VStr a) -> t !! "priority" = Some (VStr p) -> p <> "" ->
  t !! "status" = Some (VStr s) -> s <> "" -> t !! "dueDate" = Some (VStr dd) ->
  TaskForm.open (Some t) = TaskForm.mkForm (Some t) ti d a p s dd.
Proof.
  intros H1 H2 H3 H4 Hp H5 Hs H6. unfold TaskForm.open, TaskForm.initial_get, Obj.get.
  rewrite H1, H2, H3, H4, H5, H6. simpl.
  destruct p; [done|]. destruct s; [done|]. by destruct ti, d, a, dd.
Qed.

(** Edit and Save with nothing changed, on a record that has an id and is
    as the form leaves records: the record keeps every property but
    [updatedAt], which is what [now()] returns at the call the save makes
    for the record, the one after the calls made for the records with
    the same id that stand before it. *)
Theorem edit_unchanged_keeps_record (t : obj) (st : State) (i : nat) :
  tasks st !! i = Some t ->
  Obj.truthy (Obj.get t "id") = true ->
  form_shaped t ->
  let st1 := openEdit t st in
  tasks (TaskForm.save upsert'' (shownForm st1) st1) !! i
  = Some (<["updatedAt" :=
              VStr (now_at (now_calls st + hits_before (Obj.get t "id") (tasks st) i))]> t)
  /\ (now_calls st + hits_before (Obj.get t "id") (tasks st) i
      < now_calls (TaskForm.save upsert'' (shownForm st1) st1))%nat.
Proof.
  intros Hx Hid (ti & d & a & p & s & dd & H1 & Ht1 & Hne & H2 & Ht2 & H3 & H4 & Hp & H5 & Hs & H6) st1.
  assert (shownForm st1 = TaskForm.mkForm (Some t) ti d a p s dd) as Hform
    by (by apply open_form_shaped).
  assert (blank (TaskForm.title (shownForm st1)) = false) as Hb.
  { rewrite Hform. simpl. destruct (blank ti) eqn:E; [|done].
    apply trim_blank in E. congruence. }
  destruct (save_nonblank (shownForm st1) st1 Hb) as [-> Ht].
  assert (Obj.get (TaskForm.payload (shownForm st1)) "id" = Obj.get t "id") as Hpid
    by (by rewrite payload_id).
  split.
  2:{ rewrite upsertTask_update_calls by (by rewrite ?Hpid).
      rewrite Hpid. apply Nat.add_lt_mono_l. by eapply hits_before_lt. }
  rewrite (update_at uid_at now_at (TaskForm.payload (shownForm st1)) st1 i t)
    by (by rewrite ?Hpid).
  rewrite Hpid. do 2 f_equal.
  unfold Obj.spread. apply map_subseteq_union. apply map_subseteq_spec.
  intros k v. rewrite Hform. unfold TaskForm.payload. simpl.
  rewrite Ht1, Ht2.
  intros Hk.
  repeat (apply lookup_insert_Some in Hk as [[<- <-]|[_ Hk]]; [try done|]).
  - unfold Obj.get in *. destruct (t !! "id") as [w|]; [done|]. done.
  - by rewrite lookup_empty in Hk.
Qed.

Lemma update_matching_same_length payload s n :
  length (update_matching now_at payload s n).1 = length s.
Proof.
  revert n. induction s as [|x s IH]; intros n; simpl; [done|].
  case_decide.
  - specialize (IH (S n)). destruct (update_matching _ _ _ (S n)); simpl in *. lia.
  - specialize (IH n). destruct (update_matching _ _ _ n); simpl in *. lia.
Qed.

(** An update keeps the number and the places of the records; a record
    with another id stays as it is; every record with the id, should
    there be several, takes each property the payload names, [updatedAt]
    apart, which is what [now()] returns at the call made for the record:
    the one after the calls made for the records with the id that stand
    before it. *)
Theorem update_reaches_every_record_with_id (payload : obj) (st : State) (i : nat) (x : obj) :
  Obj.truthy (Obj.get payload "title") = true ->
  Obj.truthy (Obj.get payload "id") = true ->
  tasks st !! i = Some x ->
  length (tasks (upsert'' payload st)) = length (tasks st)
  /\ exists x',
       tasks (upsert'' payload st) !! i = Some x'
       /\ (Obj.get x "id" <> Obj.get payload "id" -> x' = x)
       /\ (Obj.get x "id" = Obj.get payload "id" ->
           (forall k v, payload !! k = Some v -> k <> "updatedAt" -> x' !! k = Some v)
           /\ x' !! "updatedAt"
              = Some (VStr (now_at (now_calls st
                                    + hits_before (Obj.get payload "id") (tasks st) i)))
           /\ (now_calls st + hits_before (Obj.get payload "id") (tasks st) i
               < now_calls (upsert'' payload st))%nat).
Proof.
  intros Ht Hi Hx.
  rewrite upsertTask_update_tasks, upsertTask_update_calls by done.
  split; [apply update_matching_same_length|].
  pose proof (update_matching_lookup_at now_at payload (tasks st) (now_calls st) i x Hx)
    as Hm.
  eexists. split; [exact Hm|]. split.
  - intros Hne. by rewrite decide_False.
  - intros Heq. rewrite decide_True by done. split; [|split].
    + intros k v Hk Hne. rewrite lookup_insert_ne by done. by apply spread_lookup_present.
    + apply lookup_insert_eq.
    + apply Nat.add_lt_mono_l. by eapply hits_before_lt.
Qed.

End StoreForms.

Lemma edit_of_idless_task_adds_record_witness :
  let st1 := openEdit Run.unnumbered (Run.at_rest [Run.unnumbered]) in
  exists added,
    tasks (TaskForm.save (upsertTask Run.uids Run.clock) (shownForm st1) st1)
    = [added; Run.unnumbered]
    /\ Obj.get added "title" = VStr "Fix truck 12".
Proof.
  cbv zeta.
  destruct (edit_of_idless_task_adds_record Run.uids Run.clock Run.unnumbered
              (Run.at_rest [Run.unnumbered]) eq_refl eq_refl)
    as (added & Ht & Hti & _).
  exists added. split; [exact Ht | exact Hti].
Defined.

Lemma truck_form_shaped : form_shaped Run.truck.
Proof.
  exists "Fix truck 12", "Replace brake pads", "Rami", "High", "In Progress", "2025-11-20".
  repeat split; (reflexivity || discriminate).
Defined.

Lemma edit_unchanged_keeps_record_witness :
  let st1 := openEdit Run.truck (Run.at_rest [Run.truck]) in
  tasks (TaskForm.save (upsertTask Run.uids Run.clock) (shownForm st1) st1) !! 0%nat
  = Some (<["updatedAt" := VStr (Run.clock 0)]> Run.truck).
Proof.
  exact (proj1 (edit_unchanged_keeps_record Run.uids Run.clock Run.truck
                  (Run.at_rest [Run.truck]) 0 eq_refl eq_refl truck_form_shaped)).
Defined.

Lemma update_reaches_every_record_with_id_witness :
  let twice := Run.at_rest [Run.truck; Run.A; Run.truck] in
  let st' := upsertTask Run.uids Run.clock Run.rename_truck twice in
  length (tasks st') = 3%nat
  /\ exists x',
       tasks st' !! 2%nat = Some x'
       /\ x' !! "title" = Some (VStr "Fix truck 13")
       /\ x' !! "updatedAt" = Some (VStr (Run.clock 1)).
Proof.
  cbv zeta.
  destruct (update_reaches_every_record_with_id Run.uids Run.clock Run.rename_truck
              (Run.at_rest [Run.truck; Run.A; Run.truck]) 2 Run.truck eq_refl eq_refl eq_refl)
    as (Hlen & x' & H2 & _ & Hk).
  destruct (Hk eq_refl) as (Hnamed & Hu & _).
  split; [exact Hlen|]. exists x'. split; [exact H2|]. split; [|exact Hu].
  apply (Hnamed "title"); [reflexivity|discriminate].
Defined.

Section StoreInvariant.

Variable uid_at : nat -> string.
Variable now_at : nat -> string.

Lemma titled_trim s : blank s = false -> forall t, Obj.get t "title" = VStr (Js.trim s) -> titled t.
Proof.
  intros Hb t Ht. exists (Js.trim s). split; [done|]. split.
  - by apply blank_false_trim.
  - apply trim_idem.
Qed.

Lemma titled_same_title (x y : obj) : y !! "title" = x !! "title" -> titled x -> titled y.
Proof. intros H (s & Hs & ?). exists s. unfold Obj.get in *. by rewrite H. Qed.

Lemma Forall_positions {A} (P : A -> Prop) (l l' : list A) :
  length l' = length l ->
  (forall i x, l !! i = Some x -> exists x', l' !! i = Some x' /\ P x') ->
  Forall P l'.
Proof.
  intros Hlen H. apply Forall_lookup. intros i x' Hx'.
  destruct (lookup_lt_is_Some_2 l i) as [x Hx].
  { rewrite <- Hlen. by eapply lookup_lt_Some. }
  destruct (H i x Hx) as (y & Hy & HP). congruence.
Qed.

Lemma save_keeps_titled f st :
  Forall titled (tasks st) -> Forall titled (tasks (TaskForm.save (upsertTask uid_at now_at) f st)).
Proof.
  intros Hall. destruct (blank (TaskForm.title f)) eqn:Hb.
  { unfold TaskForm.save. by rewrite (trim_blank _ Hb). }
  destruct (save_nonblank uid_at now_at f st Hb) as [-> Ht].
  destruct (Obj.truthy (Obj.get (TaskForm.payload f) "id")) eqn:Hi.
  - rewrite upsertTask_update_tasks by done.
    apply (Forall_positions _ (tasks st)); [apply update_matching_same_length|].
    intros i x Hx.
    destruct (update_matching_lookup now_at (TaskForm.payload f) (tasks st) (now_calls st) i x Hx)
      as [m Hm].
    eexists. split; [exact Hm|]. case_decide.
    + apply (titled_trim _ Hb). unfold Obj.get.
      rewrite lookup_insert_ne by done.
      by erewrite spread_lookup_present; [|reflexivity].
    + eapply Forall_lookup_1; eauto.
  - destruct (upsertTask_creates uid_at now_at (TaskForm.payload f) st Ht Hi) as [-> _].
    constructor; [|done]. apply (titled_trim _ Hb). unfold Obj.get.
    by erewrite new_task_takes_payload; [|reflexivity].
Qed.

Lemma toggleDone_keeps_titled id st :
  Forall titled (tasks st) -> Forall titled (tasks (toggleDone now_at id st)).
Proof.
  intros Hall. rewrite toggleDone_tasks.
  apply (Forall_positions _ (tasks st)); [apply toggle_matching_length|].
  intros i x Hx.
  destruct (toggle_matching_lookup now_at id (tasks st) (now_calls st) i x Hx) as [m Hm].
  eexists. split; [exact Hm|].
  assert (titled x) by (eapply Forall_lookup_1; eauto).
  case_decide; [|done].
  eapply titled_same_title; [|done]. by apply toggled_other.
Qed.

Lemma removeTask_keeps c id st (P : obj -> Prop) :
  Forall P (tasks st) -> Forall P (tasks (removeTask c id st)).
Proof.
  intros Hall. unfold removeTask. destruct c; simpl; [|done].
  apply List.Forall_forall. intros x [Hin _]%List.filter_In.
  by apply (proj1 (List.Forall_forall _ _) Hall).
Qed.

(** Titles stay in shape: when every record has a title that is not empty
    and has no white space at either end, the same holds after a save of
    the form, whatever the form holds, after Toggle Done and after a
    delete. *)
Theorem handlers_keep_titles_trimmed (f : TaskForm.Form) (id : value) (confirmed : bool)
    (st : State) :
  Forall titled (tasks st) ->
  Forall titled (tasks (TaskForm.save (upsertTask uid_at now_at) f st))
  /\ Forall titled (tasks (toggleDone now_at id st))
  /\ Forall titled (tasks (removeTask confirmed id st)).
Proof.
  intros Hall. split; [by apply save_keeps_titled|].
  split; [by apply toggleDone_keeps_titled | by apply removeTask_keeps].
Qed.

End StoreInvariant.

Lemma truck_titled : titled Run.truck.
Proof. exists "Fix truck 12". repeat split; (reflexivity || discriminate). Defined.

Lemma handlers_keep_titles_trimmed_witness :
  Forall titled (tasks (TaskForm.save (upsertTask Run.uids Run.clock) (Run.typed "  Wash  ")
                          (Run.at_rest [Run.truck])))
  /\ Forall titled (tasks (toggleDone Run.clock (VStr "abc123") (Run.at_rest [Run.truck])))
  /\ Forall titled (tasks (removeTask true (VStr "abc123") (Run.at_rest [Run.truck]))).
Proof.
  exact (handlers_keep_titles_trimmed Run.uids Run.clock (Run.typed "  Wash  ") _ true
           (Run.at_rest [Run.truck]) (Forall_cons_2 _ _ _ truck_titled (Forall_nil_2 _))).
Defined.

(* ================================================================== *)
(** * The assignee buttons *)

Lemma set_add_elem s a b : b ∈ set_add s a <-> b ∈ s \/ b = a.
Proof.
  unfold set_add. case_decide.
  - split; [by left|]. by intros [?| ->].
  - rewrite elem_of_app, list_elem_of_singleton. done.
Qed.

Lemma set_add_NoDup s a : NoDup s -> NoDup (set_add s a).
Proof.
  intros Hs. unfold set_add. case_decide; [done|].
  apply NoDup_app. split; [done|]. split.
  - intros x Hx ->%list_elem_of_singleton. done.
  - apply NoDup_singleton.
Qed.

(** The callback of the [forEach], on the set built so far. *)
Local Abbreviation collect_step :=
  (fun (s : list string) (t : obj) =>
     match Obj.get t "assignee" with
     | VStr (String c r) => set_add s (String c r)
     | _ => s
     end).

Lemma collect_step_elem (s : list string) (t : obj) (a : string) :
  a ∈ collect_step s t <-> a ∈ s \/ (a <> "" /\ Obj.get t "assignee" = VStr a).
Proof.
  cbv beta. destruct (Obj.get t "assignee") as [|[|c r]].
  - split; [intros; by left|]. by intros [?|[_ ?]].
  - split; [intros; by left|]. intros [?|[Hne [= <-]]]; done.
  - rewrite set_add_elem. split.
    + intros [?| ->]; [by left|]. by right.
    + intros [?|[_ [= <-]]]; [by left|by right].
Qed.

Lemma collect_step_NoDup (s : list string) (t : obj) : NoDup s -> NoDup (collect_step s t).
Proof.
  intros Hs. cbv beta. destruct (Obj.get t "assignee") as [|[|c r]]; try done.
  by apply set_add_NoDup.
Qed.

Lemma collect_fold (acc : list string) (lst : list obj) :
  NoDup acc ->
  NoDup (foldl collect_step acc lst)
  /\ forall a,
       a ∈ foldl collect_step acc lst
       <-> a ∈ acc \/ (a <> "" /\ exists t, t ∈ lst /\ Obj.get t "assignee" = VStr a).
Proof.
  revert acc. induction lst as [|t lst IH]; intros acc Hacc.
  { split; [done|]. intros a. split; [intros; by left|].
    intros [?|(_ & t & Ht & _)]; [done|]. by apply elem_of_nil in Ht. }
  destruct (IH (collect_step acc t) (collect_step_NoDup acc t Hacc)) as [Hnd Hel].
  split; [exact Hnd|].
  intros a. etrans; [apply Hel|]. rewrite collect_step_elem. split.
  - intros [[?|[Hne Ht]]|(Hne & t' & Ht' & Ha)].
    + by left.
    + right. split; [done|]. exists t. split; [by left|done].
    + right. split; [done|]. exists t'. split; [by right|done].
  - intros [?|(Hne & t' & [->|Ht']%elem_of_cons & Ha)].
    + by left; left.
    + left. by right.
    + right. split; [done|]. by exists t'.
Qed.

(** The assignee buttons: every name is listed once; a name is listed
    exactly when it is not empty and some task is assigned to it. *)
Theorem collectAssignees_spec (lst : list obj) :
  NoDup (collectAssignees lst)
  /\ forall a,
       a ∈ collectAssignees lst
       <-> a <> "" /\ exists t, t ∈ lst /\ Obj.get t "assignee" = VStr a.
Proof.
  destruct (collect_fold [] lst (NoDup_nil_2)) as [Hnd Hel].
  split; [exact Hnd|]. intros a. etrans; [apply Hel|].
  split; [|intros; by right]. intros [H|H]; [by apply elem_of_nil in H|done].
Qed.

Lemma filter_notin_nil (l : list string) : filter (fun a => a ∉ []) l = l.
Proof.
  induction l as [|x l IH]; [done|].
  rewrite filter_cons_True by apply not_elem_of_nil. by rewrite IH.
Qed.

Lemma filter_notin_app (s1 s2 l : list string) :
  filter (fun a => a ∉ s1) (filter (fun a => a ∉ s2) l) = filter (fun a => a ∉ (s1 ++ s2)%list) l.
Proof.
  rewrite list_filter_filter. apply list_filter_iff.
  intros x. rewrite elem_of_app. tauto.
Qed.

Lemma filter_notin_absorb (s l : list string) a :
  a ∈ s -> filter (fun b => b ∉ s) (filter (fun b => b ∉ [a]) l) = filter (fun b => b ∉ s) l.
Proof.
  intros Ha. rewrite list_filter_filter. apply list_filter_iff.
  intros x. rewrite list_elem_of_singleton. split; [tauto|].
  intros Hx. split; [done|]. by intros ->.
Qed.

Lemma collect_fold_from (acc : list string) (lst : list obj) :
  foldl collect_step acc lst
  = (acc ++ filter (fun a => a ∉ acc) (foldl collect_step [] lst))%list.
Proof.
  revert acc. induction lst as [|t lst IH]; intros acc.
  { simpl. by rewrite app_nil_r. }
  cbn [foldl]. rewrite (IH (collect_step acc t)), (IH (collect_step [] t)). cbv beta.
  destruct (Obj.get t "assignee") as [|[|c r]].
  - by rewrite filter_notin_nil.
  - by rewrite filter_notin_nil.
  - set (a := String c r).
    assert (set_add [] a = [a]) as -> by reflexivity.
    unfold set_add. case_decide as Ha.
    + rewrite filter_app, filter_notin_absorb by done.
      rewrite filter_cons_False by (by intros H'; apply H'). done.
    + rewrite filter_app, filter_notin_app.
      rewrite filter_cons_True by done. rewrite filter_nil.
      by rewrite <- app_assoc.
Qed.

(** The buttons come in the order in which the names first appear: the
    names of more tasks go behind those already listed, without the
    names that are listed already. *)
Theorem collectAssignees_first_appearance (l1 l2 : list obj) :
  collectAssignees (l1 ++ l2)
  = (collectAssignees l1
     ++ filter (fun a => a ∉ collectAssignees l1) (collectAssignees l2))%list.
Proof.
  unfold collectAssignees. rewrite foldl_app. apply collect_fold_from.
Qed.

(* ================================================================== *)
(** * The derived view as a whole *)

Lemma nonempty_trim q : Js.nonempty (Js.trim q) = negb (blank q).
Proof.
  destruct (blank q) eqn:Hb.
  - by rewrite (trim_blank _ Hb).
  - pose proof (blank_false_trim _ Hb). by destruct (Js.trim q).
Qed.

Lemma filterM_matches q ts :
  filterM (matches (Js.toLowerCase q)) ts
  = if existsb untitled ts then Throws TypeError
    else Returns (List.filter (search_hit q) ts).
Proof.
  induction ts as [|t ts IH]; [done|].
  cbn [filterM existsb List.filter]. rewrite IH.
  change (untitled t) with (bool_decide (Obj.get t "title" = VUndef)).
  change (search_hit q t)
    with (match matches (Js.toLowerCase q) t with Returns b => b | _ => false end).
  unfold matches.
  destruct (Obj.get t "title") as [|ti] eqn:Ht.
  - by rewrite bool_decide_eq_true_2.
  - rewrite bool_decide_eq_false_2 by done. simpl.
    destruct (existsb untitled ts); [done|]. simpl.
    by destruct (_ || _).
Qed.

Lemma filter_filter_andb {A} (f g : A -> bool) l :
  List.filter g (List.filter f l) = List.filter (fun x => f x && g x) l.
Proof.
  induction l as [|x l IH]; [done|]. simpl.
  destruct (f x); simpl; [|done]. destruct (g x); by rewrite IH.
Qed.

Lemma filter_unless {A} (P : Prop) `{!Decision P} (g : A -> bool) l :
  (if decide P then l else List.filter g l) = List.filter (fun x => bool_decide P || g x) l.
Proof.
  case_decide.
  - rewrite bool_decide_eq_true_2 by done. simpl. induction l; simpl; congruence.
  - by rewrite bool_decide_eq_false_2 by done.
Qed.

Lemma filter_ext_bool {A} (f g : A -> bool) l :
  (forall x, f x = g x) -> List.filter f l = List.filter g l.
Proof. intros H. induction l as [|x l IH]; [done|]. simpl. by rewrite H, IH. Qed.

Lemma filtered_closed_form ts q fs fp :
  filtered ts q fs fp
  = if negb (blank q) && existsb untitled ts then Throws TypeError
    else Returns (List.filter (shown q fs fp) ts).
Proof.
  unfold filtered. rewrite nonempty_trim.
  destruct (blank q) eqn:Hb; simpl.
  - rewrite !filter_unless, filter_filter_andb. f_equal.
    apply filter_ext_bool. intros t. unfold shown. by rewrite Hb.
  - rewrite filterM_matches. destruct (existsb untitled ts); [done|]. simpl.
    rewrite !filter_unless, !filter_filter_andb. f_equal.
    apply filter_ext_bool. intros t. unfold shown. rewrite Hb. simpl.
    by rewrite ?andb_assoc.
Qed.

Lemma sorted_by_perm sortBy l : sorted_by sortBy l ≡ₚ l.
Proof. unfold sorted_by. repeat case_decide; try done; apply sort_perm. Qed.

(** The view in one piece.  It throws a TypeError exactly when there is a
    search text that is not blank and some task has no title; otherwise
    it holds the tasks that pass the three tests, each as often as it
    is stored, in the order of the sort. *)
Theorem visibleTasks_closed_form (ts : list obj) (q fs fp sortBy : string) :
  visibleTasks ts q fs fp sortBy
  = (if negb (blank q) && existsb untitled ts then Throws TypeError
     else Returns (sorted_by sortBy (List.filter (shown q fs fp) ts)))
  /\ sorted_by sortBy (List.filter (shown q fs fp) ts) ≡ₚ List.filter (shown q fs fp) ts.
Proof.
  split; [|apply sorted_by_perm].
  unfold visibleTasks. rewrite filtered_closed_form.
  by destruct (negb (blank q) && existsb untitled ts).
Qed.

Lemma visibleTasks_elem ts q fs fp sortBy view t :
  visibleTasks ts q fs fp sortBy = Returns view ->
  (negb (blank q) && existsb untitled ts = false)
  /\ (t ∈ view <-> t ∈ ts /\ shown q fs fp t = true).
Proof.
  unfold visibleTasks. rewrite filtered_closed_form.
  destruct (negb (blank q) && existsb untitled ts); [done|]. simpl.
  intros [= <-]. split; [done|].
  rewrite sorted_by_perm, !list_elem_of_In. apply List.filter_In.
Qed.

Lemma prefix_refl s : String.prefix s s = true.
Proof.
  induction s as [|c s IH]; [done|]. simpl. by destruct (ascii_dec c c).
Qed.

Lemma includes_refl s : Js.includes s s = true.
Proof. destruct s as [|c s]; [done|]. cbn [Js.includes]. by rewrite prefix_refl. Qed.

Lemma search_hit_assignee a t :
  untitled t = false -> Obj.get t "assignee" = VStr a -> search_hit a t = true.
Proof.
  intros Hu Ha. unfold search_hit, matches, untitled in *.
  destruct (Obj.get t "title") as [|ti]; [by rewrite bool_decide_eq_true_2 in Hu|].
  rewrite Ha. rewrite or_else_string, includes_refl. by rewrite !orb_true_r.
Qed.

(** A click on the button of an assignee puts the name in the search box.
    Then, when the view is produced, a task assigned to that name is
    shown exactly when it passes the status and the priority filter; and
    with both filters on All the view is not empty. *)
Theorem assignee_button_shows_their_tasks (ts : list obj) (a fs fp sortBy : string)
    (view : list obj) :
  a ∈ collectAssignees ts ->
  visibleTasks ts a fs fp sortBy = Returns view ->
  (forall t, t ∈ ts -> Obj.get t "assignee" = VStr a ->
     t ∈ view <-> (fs = "All" \/ Obj.get t "status" = VStr fs)
                  /\ (fp = "All" \/ Obj.get t "priority" = VStr fp))
  /\ (fs = "All" -> fp = "All" -> exists t, t ∈ view /\ Obj.get t "assignee" = VStr a).
Proof.
  intros Hbtn Hview.
  assert (forall t, t ∈ ts -> Obj.get t "assignee" = VStr a ->
            blank a || search_hit a t = true) as Hhit.
  { intros t Ht Ha.
    destruct (visibleTasks_elem ts a fs fp sortBy view t Hview) as [Hno _].
    destruct (blank a); [done|]. simpl in *.
    apply search_hit_assignee; [|done].
    destruct (untitled t) eqn:Hu; [|done].
    assert (existsb untitled ts = true); [|congruence].
    apply List.existsb_exists. exists t. by rewrite <- list_elem_of_In. }
  split.
  - intros t Ht Ha.
    destruct (visibleTasks_elem ts a fs fp sortBy view t Hview) as [_ ->].
    unfold shown. rewrite (Hhit t Ht Ha). simpl.
    rewrite andb_true_iff, !orb_true_iff, !bool_decide_eq_true. tauto.
  - intros -> ->.
    apply (proj2 (collect_fold [] ts NoDup_nil_2)) in Hbtn as [Hbtn|(_ & t & Ht & Ha)];
      [by apply elem_of_nil in Hbtn|].
    exists t. split; [|done].
    destruct (visibleTasks_elem ts a "All" "All" sortBy view t Hview) as [_ ->].
    split; [done|]. unfold shown. by rewrite (Hhit t Ht Ha).
Qed.

Lemma assignee_button_shows_their_tasks_witness :
  exists t, t ∈ [Run.truck] /\ Obj.get t "assignee" = VStr "Rami".
Proof.
  exact (proj2 (assignee_button_shows_their_tasks [Run.truck; Run.A] "Rami" "All" "All"
                  "dueDate" [Run.truck] (list_elem_of_here "Rami" []) eq_refl)
           eq_refl eq_refl).
Defined.

Lemma is_white_lower_char c : Js.is_white (Js.lower_char c) = Js.is_white c.
Proof. by destruct c as [[] [] [] [] [] [] [] []]. Qed.

Lemma blank_toLowerCase q : blank (Js.toLowerCase q) = blank q.
Proof.
  induction q as [|c q IH]; [done|]. simpl. by rewrite is_white_lower_char, IH.
Qed.

(** The search ignores the case of the search text: two texts that are
    the same in lower case give the same view, or the same exception. *)
Theorem search_ignores_case_of_query (ts : list obj) (q1 q2 fs fp sortBy : string) :
  Js.toLowerCase q1 = Js.toLowerCase q2 ->
  visibleTasks ts q1 fs fp sortBy = visibleTasks ts q2 fs fp sortBy.
Proof.
  intros Hq. unfold visibleTasks, filtered. rewrite !nonempty_trim.
  rewrite <- (blank_toLowerCase q1), <- (blank_toLowerCase q2), Hq. done.
Qed.

Lemma search_ignores_case_of_query_witness :
  visibleTasks [Run.truck; Run.A] "RAMI" "All" "All" "dueDate"
  = visibleTasks [Run.truck; Run.A] "rami" "All" "All" "dueDate".
Proof.
  exact (search_ignores_case_of_query [Run.truck; Run.A] "RAMI" "rami" "All" "All" "dueDate"
           eq_refl).
Defined.

(* ================================================================== *)
(** * The sorts by priority and by last update *)

(** The sort reads its comparator on the elements of the array only. *)
Section SortExt.

Context {A : Type}.
Variables c1 c2 : A -> A -> Z.
Variable D : A -> Prop.
Hypothesis agree : forall x y, D x -> D y -> c1 x y = c2 x y.

Lemma run_tail_ext desc prev rest :
  D prev -> Forall D rest -> run_tail c1 desc prev rest = run_tail c2 desc prev rest.
Proof.
  revert prev. induction rest as [|cur rest IH]; intros prev Hp Hr; [done|].
  apply Forall_cons in Hr as [Hc Hr]. simpl.
  rewrite (agree cur prev Hc Hp), (IH cur Hc Hr). done.
Qed.

Lemma count_and_make_run_ext a :
  Forall D a -> count_and_make_run c1 a = count_and_make_run c2 a.
Proof.
  destruct a as [|x0 [|x1 a]]; [done..|].
  intros Ha. apply Forall_cons in Ha as [H0 Ha]. apply Forall_cons in Ha as [H1 Ha].
  unfold count_and_make_run.
  by rewrite (agree x1 x0 H1 H0), (run_tail_ext _ x1 a H1 Ha).
Qed.

Lemma search_ext fuel pivot a left right :
  D pivot -> Forall D a ->
  search c1 fuel pivot a left right = search c2 fuel pivot a left right.
Proof.
  intros Hp Ha. revert left right.
  induction fuel as [|fuel IH]; intros left right; [done|]. cbn [search].
  destruct (left <? right)%nat; [|done].
  destruct (a !! (left + (right - left) / 2)%nat) as [y|] eqn:Hy; [|done].
  rewrite (agree pivot y Hp (Forall_lookup_1 _ _ _ _ Ha Hy)), !IH. done.
Qed.

Lemma insert_pivot_ext sorted pivot :
  D pivot -> Forall D sorted -> insert_pivot c1 sorted pivot = insert_pivot c2 sorted pivot.
Proof. intros Hp Hs. unfold insert_pivot. by rewrite search_ext. Qed.

Lemma fold_insert_ext rest run :
  Forall D run -> Forall D rest ->
  fold_left (insert_pivot c1) rest run = fold_left (insert_pivot c2) rest run.
Proof.
  revert run. induction rest as [|p rest IH]; intros run Hrun Hrest; [done|].
  apply Forall_cons in Hrest as [Hp Hrest]. simpl.
  rewrite (insert_pivot_ext run p Hp Hrun). apply IH; [|done].
  rewrite insert_pivot_perm. by constructor.
Qed.

Lemma sort_ext a : Forall D a -> sort c1 a = sort c2 a.
Proof.
  intros Ha. unfold sort. destruct (length a <? 2)%nat; [done|].
  rewrite <- (count_and_make_run_ext a Ha).
  destruct (count_and_make_run c1 a) as [run rest] eqn:E.
  apply count_and_make_run_perm in E. rewrite <- E in Ha.
  apply Forall_app in Ha as [Hrun Hrest]. by apply fold_insert_ext.
Qed.

End SortExt.

(** A comparator that answers for a strict order in which being neither
    before nor after is transitive: the sort puts the elements in order
    and keeps the elements of a class of ties in the order they had. *)
Section SortStable.

Context {A : Type}.
Variable comparefn : A -> A -> Z.
Variable lt : relation A.
Hypothesis lt_spec : forall a b, (comparefn a b < 0)%Z <-> lt a b.
Hypothesis lt_irrefl : forall a, ~ lt a a.
Hypothesis lt_trans : forall a b c, lt a b -> lt b c -> lt a c.
Hypothesis lt_cotrans : forall a b c, lt a b -> lt a c \/ lt c b.

(** A class of elements none of which goes before another. *)
Variable f : A -> bool.
Hypothesis f_ties : forall x y, f x = true -> f y = true -> ~ lt x y.

Local Abbreviation not_after := (fun a b : A => ~ lt b a).

Lemma not_after_trans : Transitive not_after.
Proof. intros a b c Hab Hbc Hca. destruct (lt_cotrans c a b Hca); auto. Qed.

Lemma neg_not_after a b : (comparefn a b < 0)%Z -> not_after a b.
Proof. intros H%lt_spec Hba. exact (lt_irrefl a (lt_trans a b a H Hba)). Qed.

Lemma nonneg_not_after a b : (0 <= comparefn a b)%Z -> not_after b a.
Proof. intros H Hab%lt_spec. lia. Qed.

Lemma filter_none l : Forall (fun y => f y = false) l -> List.filter f l = [].
Proof. induction 1 as [|y l Hy _ IH]; [done|]. simpl. by rewrite Hy. Qed.

Lemma search_strict fuel pivot a left right :
  StronglySorted not_after a ->
  (left <= right <= length a)%nat -> (right - left <= fuel)%nat ->
  Forall (lt pivot) (drop right a) ->
  Forall (lt pivot) (drop (search comparefn fuel pivot a left right) a).
Proof.
  intros Hsorted. revert left right.
  induction fuel as [|fuel IH]; intros left right Hrange Hfuel Hr; cbn [search].
  { by replace right with left in Hr by lia. }
  destruct (left <? right)%nat eqn:Hlt.
  2:{ apply Nat.ltb_ge in Hlt. by replace right with left in Hr by lia. }
  apply Nat.ltb_lt in Hlt.
  assert ((right - left) / 2 < right - left)%nat as Hhalf
    by (apply Nat.div_lt; lia).
  set (mid := (left + (right - left) / 2)%nat) in *.
  assert (left <= mid < right)%nat as Hmid by (unfold mid; lia).
  destruct (lookup_lt_is_Some_2 a mid) as [y Hy]; [lia|].
  rewrite Hy.
  destruct (comparefn pivot y <? 0)%Z eqn:E.
  - apply IH; [lia|lia|].
    assert (lt pivot y) as Hpy by (apply lt_spec; lia).
    assert (a = (take mid a ++ y :: drop (S mid) a)%list) as Hsplit.
    { rewrite <- (take_drop mid a) at 1. f_equal. by apply drop_S. }
    rewrite Hsplit in Hsorted.
    apply StronglySorted_app in Hsorted as (_ & _ & Htail).
    apply StronglySorted_cons in Htail as [Htail _].
    rewrite (drop_S _ _ _ Hy). constructor; [done|].
    eapply Forall_impl; [exact Htail|].
    intros z Hz. simpl in Hz. destruct (lt_cotrans pivot y z Hpy); [done|]. done.
  - apply IH; [lia|lia|done].
Qed.

Lemma insert_pivot_stable sorted pivot :
  StronglySorted not_after sorted ->
  List.filter f (insert_pivot comparefn sorted pivot) = List.filter f (sorted ++ [pivot]).
Proof.
  intros Hs. unfold insert_pivot.
  pose proof (search_strict (length sorted) pivot sorted 0 (length sorted) Hs) as Hafter.
  set (p := search comparefn _ _ _ _ _) in *.
  rewrite <- (take_drop p sorted) at 3.
  rewrite !List.filter_app. simpl.
  destruct (f pivot) eqn:Hp; [|by rewrite app_nil_r].
  rewrite (filter_none (drop p sorted)); [by rewrite app_nil_r|].
  eapply Forall_impl.
  { apply Hafter; [lia|lia|by rewrite drop_all]. }
  intros y Hy. simpl in Hy. destruct (f y) eqn:Hfy; [|done].
  by destruct (f_ties pivot y).
Qed.

Lemma fold_insert_stable rest run :
  StronglySorted not_after run ->
  List.filter f (fold_left (insert_pivot comparefn) rest run) = List.filter f (run ++ rest).
Proof.
  revert run. induction rest as [|p rest IH]; intros run Hrun; simpl.
  { by rewrite app_nil_r. }
  rewrite IH.
  - rewrite List.filter_app, insert_pivot_stable by done.
    rewrite <- List.filter_app. by rewrite <- app_assoc.
  - apply (@insert_pivot_sorted _ comparefn not_after not_after_trans
             neg_not_after nonneg_not_after). done.
Qed.

Lemma descending_run_stable l :
  StronglySorted (flip lt) l -> List.filter f (reverse l) = List.filter f l.
Proof.
  induction 1 as [|y l Hl IH Hy]; [done|].
  rewrite reverse_cons, List.filter_app, IH. simpl.
  destruct (f y) eqn:Hfy; [|by rewrite app_nil_r].
  rewrite filter_none; [done|].
  eapply Forall_impl; [exact Hy|].
  intros z Hz. simpl in Hz. destruct (f z) eqn:Hfz; [|done].
  by destruct (f_ties z y).
Qed.

Lemma count_and_make_run_stable a run rest :
  count_and_make_run comparefn a = (run, rest) ->
  List.filter f (run ++ rest) = List.filter f a.
Proof.
  unfold count_and_make_run.
  destruct a as [|x0 [|x1 a]].
  { by intros [= <- <-]. }
  { by intros [= <- <-]. }
  destruct (comparefn x1 x0 <? 0)%Z eqn:E; cbv zeta; intros [= <- <-].
  - assert (StronglySorted (flip lt)
              (x0 :: x1 :: take (run_tail comparefn true x1 a) a)) as Hd.
    { apply Sorted_StronglySorted.
      { intros x y z Hxy Hyz. unfold flip in *. by eapply lt_trans. }
      constructor.
      - apply (run_tail_descending comparefn lt). intros ? ?. apply lt_spec.
      - constructor. apply lt_spec. lia. }
    rewrite List.filter_app, (descending_run_stable _ Hd), <- List.filter_app.
    by rewrite <- !app_comm_cons, take_drop.
  - by rewrite <- !app_comm_cons, take_drop.
Qed.

Lemma sort_stable a : List.filter f (sort comparefn a) = List.filter f a.
Proof.
  unfold sort. destruct (length a <? 2)%nat; [done|].
  destruct (count_and_make_run comparefn a) as [run rest] eqn:Erun.
  rewrite fold_insert_stable.
  - by apply count_and_make_run_stable.
  - apply (@count_and_make_run_sorted _ comparefn not_after not_after_trans
             neg_not_after nonneg_not_after _ _ _ Erun).
Qed.

Lemma sort_in_order a : StronglySorted not_after (sort comparefn a).
Proof.
  apply (@sort_sorted _ comparefn not_after not_after_trans neg_not_after nonneg_not_after).
Qed.

End SortStable.

Lemma StronglySorted_weaken {A} (R1 R2 : relation A) l :
  (forall x y, R1 x y -> R2 x y) -> StronglySorted R1 l -> StronglySorted R2 l.
Proof.
  intros HR. induction 1 as [|x l _ IH Hx]; constructor; [done|].
  eapply Forall_impl; [exact Hx|]. auto.
Qed.

Lemma visibleTasks_view ts q fs fp sortBy view :
  visibleTasks ts q fs fp sortBy = Returns view ->
  view = sorted_by sortBy (List.filter (shown q fs fp) ts).
Proof.
  unfold visibleTasks. rewrite filtered_closed_form.
  destruct (negb (blank q) && existsb untitled ts); [done|]. simpl. by intros [= <-].
Qed.

Lemma Forall_filter_bool {A} (P : A -> Prop) (g : A -> bool) l :
  Forall P l -> Forall P (List.filter g l).
Proof.
  intros Hl. apply List.Forall_forall. intros x [Hin _]%List.filter_In.
  by apply (proj1 (List.Forall_forall _ _) Hl).
Qed.

(** On priorities whose rank is a number the comparator is the
    difference of the keys. *)
Lemma priority_cmp_ranked a b :
  ranked a -> ranked b -> priority_cmp a b = (rank_key a - rank_key b)%Z.
Proof.
  unfold ranked, rank_key, priority_cmp.
  destruct (rank (Obj.get a "priority")), (rank (Obj.get b "priority")); done.
Qed.

(** Sorted by priority, with priorities whose rank is a number (the four
    of the form, a missing one, or any name that [Object.prototype] does
    not have): the view holds the tasks that pass the filters from the
    lowest rank to the highest, Critical last, and the tasks of one rank
    stay in the order in which they are stored. *)
Theorem priority_view_order (ts : list obj) (q fs fp : string) (view : list obj) :
  Forall ranked ts ->
  visibleTasks ts q fs fp "priority" = Returns view ->
  view ≡ₚ List.filter (shown q fs fp) ts
  /\ StronglySorted (fun a b => (rank_key a <= rank_key b)%Z) view
  /\ forall p,
       List.filter (fun t => (rank_key t =? p)%Z) view
       = List.filter (fun t => (rank_key t =? p)%Z) (List.filter (shown q fs fp) ts).
Proof.
  intros Hr ->%visibleTasks_view.
  split; [apply sorted_by_perm|].
  change (sorted_by "priority" (List.filter (shown q fs fp) ts))
    with (sort priority_cmp (List.filter (shown q fs fp) ts)).
  rewrite (sort_ext priority_cmp (fun a b => (rank_key a - rank_key b)%Z) ranked
             priority_cmp_ranked) by (by apply Forall_filter_bool).
  split.
  - eapply StronglySorted_weaken;
      [|apply (sort_in_order _ (fun a b => (rank_key a < rank_key b)%Z))].
    + simpl. intros; lia.
    + intros; lia.
    + intros; lia.
    + intros; lia.
    + intros; lia.
  - intros p.
    apply (sort_stable _ (fun a b => (rank_key a < rank_key b)%Z)).
    + intros; lia.
    + intros; lia.
    + intros; lia.
    + intros; lia.
    + intros x y Hx%Z.eqb_eq Hy%Z.eqb_eq. lia.
Qed.

Lemma priority_view_order_witness :
  [Run.A; Run.truck] ≡ₚ List.filter (shown "" "All" "All") [Run.truck; Run.A]
  /\ StronglySorted (fun a b => (rank_key a <= rank_key b)%Z) [Run.A; Run.truck]
  /\ forall p,
       List.filter (fun t => (rank_key t =? p)%Z) [Run.A; Run.truck]
       = List.filter (fun t => (rank_key t =? p)%Z)
           (List.filter (shown "" "All" "All") [Run.truck; Run.A]).
Proof.
  apply (priority_view_order [Run.truck; Run.A] "" "All" "All" [Run.A; Run.truck]);
    [|reflexivity].
  repeat constructor; discriminate.
Defined.

Lemma updatedAt_cmp_neg a b :
  (updatedAt_cmp a b < 0)%Z <-> ~ String.le (updated_key a) (updated_key b).
Proof.
  unfold updatedAt_cmp. fold (updated_key a) (updated_key b).
  destruct (Js.gt (updated_key a) (updated_key b)) eqn:E.
  - split; [intros _; by apply gt_true_not_le|intros _; lia].
  - split; [lia|]. intros H. destruct H. by apply gt_false_le.
Qed.

Lemma not_le_cotrans (a b c : string) :
  ~ String.le a b -> ~ String.le a c \/ ~ String.le c b.
Proof.
  intros Hab. destruct (Js.gt a c) eqn:E.
  - left. by apply gt_true_not_le.
  - right. intros Hcb. apply Hab. etrans; [|exact Hcb]. by apply gt_false_le.
Qed.

Lemma not_not_le (a b : string) : ~ ~ String.le a b -> String.le a b.
Proof.
  intros H. destruct (Js.gt a b) eqn:E.
  - destruct H. by apply gt_true_not_le.
  - by apply gt_false_le.
Qed.

(** Sorted by last update, with the sort as V8 runs it: the view holds
    the tasks that pass the filters from the latest stamp to the
    earliest, and the tasks with one and the same stamp stay in the order
    in which they are stored. *)
Theorem updatedAt_view_order (ts : list obj) (q fs fp : string) (view : list obj) :
  visibleTasks ts q fs fp "updatedAt" = Returns view ->
  view ≡ₚ List.filter (shown q fs fp) ts
  /\ StronglySorted (fun a b => String.le (updated_key b) (updated_key a)) view
  /\ forall k,
       List.filter (fun t => bool_decide (updated_key t = k)) view
       = List.filter (fun t => bool_decide (updated_key t = k))
           (List.filter (shown q fs fp) ts).
Proof.
  intros ->%visibleTasks_view.
  split; [apply sorted_by_perm|].
  change (sorted_by "updatedAt" (List.filter (shown q fs fp) ts))
    with (sort updatedAt_cmp (List.filter (shown q fs fp) ts)).
  assert (forall a b c : obj,
            ~ String.le (updated_key a) (updated_key b) ->
            ~ String.le (updated_key b) (updated_key c) ->
            ~ String.le (updated_key a) (updated_key c)) as Htrans.
  { intros a b c Hab Hbc Hac.
    destruct (not_le_cotrans _ _ (updated_key c) Hab) as [H|H]; [done|].
    apply H. apply not_not_le. intros Hcb.
    destruct (not_le_cotrans _ _ (updated_key a) Hbc) as [H'|H']; [|done].
    apply H'. apply not_not_le. intros Hba. apply Hab.
    destruct (total String.le (updated_key a) (updated_key b)); done. }
  split.
  - eapply StronglySorted_weaken;
      [|apply (sort_in_order _ (fun a b => ~ String.le (updated_key a) (updated_key b)))].
    + simpl. intros x y. apply not_not_le.
    + apply updatedAt_cmp_neg.
    + intros a H. by apply H.
    + exact Htrans.
    + intros a b c. apply not_le_cotrans.
  - intros k.
    apply (sort_stable _ (fun a b => ~ String.le (updated_key a) (updated_key b))).
    + apply updatedAt_cmp_neg.
    + intros a H. by apply H.
    + exact Htrans.
    + intros a b c. apply not_le_cotrans.
    + intros x y Hx%bool_decide_eq_true Hy%bool_decide_eq_true H.
      apply H. by rewrite Hx, Hy.
Qed.

Lemma updatedAt_view_order_witness :
  [Run.P1; Run.P2; Run.truck] ≡ₚ List.filter (shown "" "All" "All") [Run.P1; Run.truck; Run.P2]
  /\ StronglySorted (fun a b => String.le (updated_key b) (updated_key a))
       [Run.P1; Run.P2; Run.truck]
  /\ forall k,
       List.filter (fun t => bool_decide (updated_key t = k)) [Run.P1; Run.P2; Run.truck]
       = List.filter (fun t => bool_decide (updated_key t = k))
           (List.filter (shown "" "All" "All") [Run.P1; Run.truck; Run.P2]).
Proof.
  exact (updatedAt_view_order [Run.P1; Run.truck; Run.P2] "" "All" "All"
           [Run.P1; Run.P2; Run.truck] eq_refl).
Defined.

(* ================================================================== *)
(** * More on export and import *)

Lemma join_cons_nonempty sep x l :
  l <> [] -> Js.join sep (x :: l) = x +:+ sep +:+ Js.join sep l.
Proof. by destruct l. Qed.

Lemma join_snoc sep l x :
  l <> [] -> Js.join sep (l ++ [x]) = Js.join sep l +:+ sep +:+ x.
Proof.
  induction l as [|y l IH]; [done|]. intros _.
  destruct l as [|z l]; [done|].
  change ((y :: z :: l) ++ [x])%list with (y :: z :: (l ++ [x]))%list.
  rewrite !join_cons.
  change (z :: (l ++ [x]))%list with ((z :: l) ++ [x])%list.
  rewrite IH by done. by rewrite !append_assoc.
Qed.

Lemma join_snoc_push l cur ch :
  Js.join "," (l ++ [Js.push cur ch]) = Js.join "," (l ++ [cur]) +:+ String ch "".
Proof.
  destruct (decide (l = [])) as [->|Hl]; [done|].
  rewrite !join_snoc by done. unfold Js.push. by rewrite !append_assoc.
Qed.

(** The loop of [splitCSVLine] drops the double quotes and nothing else:
    the parts, joined by commas again, are the line without them. *)
Lemma scan_join line cur inQ parts :
  Js.join "," (scan line cur inQ parts)
  = Js.join "," (parts ++ [cur]) +:+ Js.remove_quotes line.
Proof.
  revert cur inQ parts. induction line as [|ch line IH]; intros cur inQ parts.
  { simpl. by rewrite append_empty_r. }
  simpl scan. simpl Js.remove_quotes.
  destruct (Js.is_char ch Js.dquote) eqn:Hq; [apply IH|].
  destruct (Js.is_char ch Js.comma && negb inQ) eqn:Hc.
  - rewrite IH. apply andb_true_iff in Hc as [Hc%Ascii.eqb_eq _]. subst ch.
    rewrite join_snoc by (by destruct parts).
    by rewrite !append_assoc.
  - rewrite IH, join_snoc_push. by rewrite append_assoc.
Qed.

Lemma quote_free_push cur ch :
  quote_free cur = true -> Js.is_char ch Js.dquote = false ->
  quote_free (Js.push cur ch) = true.
Proof.
  intros Hcur Hch. unfold Js.push. rewrite quote_free_app, Hcur. simpl. by rewrite Hch.
Qed.

Lemma scan_quote_free line cur inQ parts :
  Forall (fun b => quote_free b = true) parts -> quote_free cur = true ->
  Forall (fun b => quote_free b = true) (scan line cur inQ parts).
Proof.
  revert cur inQ parts. induction line as [|ch line IH]; intros cur inQ parts Hp Hcur.
  { simpl. apply Forall_app. split; [done|]. by constructor. }
  simpl scan.
  destruct (Js.is_char ch Js.dquote) eqn:Hq; [by apply IH|].
  destruct (Js.is_char ch Js.comma && negb inQ).
  - apply IH; [|done]. apply Forall_app. split; [done|]. by constructor.
  - apply IH; [done|]. by apply quote_free_push.
Qed.

Lemma scan_length line cur inQ parts :
  (length parts < length (scan line cur inQ parts))%nat.
Proof.
  revert cur inQ parts. induction line as [|ch line IH]; intros cur inQ parts.
  { simpl. rewrite length_app. simpl. lia. }
  simpl scan.
  destruct (Js.is_char ch Js.dquote); [apply IH|].
  destruct (Js.is_char ch Js.comma && negb inQ); [|apply IH].
  specialize (IH "" inQ (parts ++ [cur])%list). rewrite length_app in IH. simpl in IH. lia.
Qed.

(** What [splitCSVLine] makes of any line at all: at least one part; each
    part a body between two double quotes, the body itself free of them;
    and the bodies, joined by commas, are the line with its double
    quotes taken out. *)
Theorem splitCSVLine_keeps_all_but_quotes (line : string) :
  exists bodies,
    splitCSVLine line = map requote bodies
    /\ bodies <> []
    /\ Forall (fun b => quote_free b = true
                        /\ requote b = Js.quote_str +:+ b +:+ Js.quote_str) bodies
    /\ Js.join "," bodies = Js.remove_quotes line.
Proof.
  exists (scan line "" false []). split; [done|]. split; [|split].
  - pose proof (scan_length line "" false []) as H.
    destruct (scan line "" false []); [simpl in H; lia|done].
  - eapply Forall_impl; [apply (scan_quote_free line "" false []); by constructor|].
    intros b Hb. split; [exact Hb|]. by destruct b.
  - by rewrite scan_join.
Qed.

(** *** Files written without quoting *)

Lemma plain_char_escape c : plain_char c = true -> JSON.escape_char c = String c "".
Proof.
  unfold plain_char, JSON.escape_char.
  intros [[[Hq Hc]%andb_true_iff Hb]%andb_true_iff Hn]%andb_true_iff.
  apply negb_true_iff in Hq, Hb, Hn. rewrite Hq, Hb.
  apply N.ltb_ge in Hn.
  rewrite !(proj2 (N.eqb_neq _ _)) by lia.
  by rewrite (proj2 (N.ltb_ge _ _)) by lia.
Qed.

Lemma plain_escape v : plain v = true -> JSON.escape v = v.
Proof.
  induction v as [|c v IH]; [done|]. simpl.
  intros [Hc Hv]%andb_true_iff. by rewrite plain_char_escape, IH.
Qed.

Lemma plain_quote_free v : plain v = true -> quote_free v = true.
Proof.
  induction v as [|c v IH]; [done|]. simpl.
  intros [Hc Hv]%andb_true_iff. rewrite IH by done.
  unfold plain_char in Hc. by destruct (Js.is_char c Js.dquote).
Qed.

Lemma plain_one_line v : plain v = true -> one_line v = true.
Proof.
  induction v as [|c v IH]; [done|]. simpl.
  intros [Hc Hv]%andb_true_iff. rewrite IH by done.
  unfold plain_char in Hc.
  apply andb_true_iff in Hc as [_ Hn]. apply negb_true_iff, N.ltb_ge in Hn.
  unfold Js.is_char, Js.LF, Js.CR.
  destruct (Ascii.eqb_spec c "010"%char) as [->|_]; [by vm_compute in Hn|].
  destruct (Ascii.eqb_spec c "013"%char) as [->|_]; [by vm_compute in Hn|].
  done.
Qed.

Lemma requote_plain v : plain v = true -> requote v = JSON.stringify v.
Proof. intros Hv. by rewrite <- requote_escape, plain_escape. Qed.

Lemma scan_plain v rest cur parts :
  plain v = true ->
  scan (v +:+ rest) cur false parts = scan rest (cur +:+ v) false parts.
Proof.
  revert cur. induction v as [|c v IH]; intros cur.
  - intros _. by rewrite append_nil, append_empty_r.
  - cbn [plain]. intros [Hc Hv]%andb_true_iff.
    unfold plain_char in Hc.
    apply andb_true_iff in Hc as [[[Hq Hcm]%andb_true_iff _]%andb_true_iff _].
    apply negb_true_iff in Hq, Hcm.
    rewrite append_cons. simpl scan. rewrite Hq, Hcm. simpl.
    rewrite IH by done. unfold Js.push. by rewrite append_assoc.
Qed.

Lemma scan_plain_row vs parts :
  vs <> [] -> Forall (fun v => plain v = true) vs ->
  scan (Js.join "," vs) "" false parts = (parts ++ vs)%list.
Proof.
  intros Hne Hq. revert parts.
  induction Hq as [|v vs Hv Hvs IH]; intros parts; [done|].
  destruct vs as [|v2 vs].
  - change (Js.join "," [v]) with v.
    rewrite <- (append_empty_r v) at 1.
    by rewrite scan_plain.
  - rewrite join_cons, scan_plain by done.
    change ("," +:+ ?r) with (String Js.comma r). simpl scan.
    rewrite (IH ltac:(done)). simpl. by rewrite <- app_assoc.
Qed.

Lemma splitCSVLine_plain vs :
  vs <> [] -> Forall (fun v => plain v = true) vs ->
  splitCSVLine (Js.join "," vs) = map JSON.stringify vs.
Proof.
  intros Hne Hq. unfold splitCSVLine. rewrite scan_plain_row by done. simpl.
  induction Hq as [|v vs Hv _ IH]; [done|]. simpl.
  rewrite requote_plain by done. f_equal.
  destruct vs; [done|]. by apply IH.
Qed.

Lemma import_line_plain names vs :
  vs <> [] -> Forall (fun v => plain v = true) vs -> length names = length vs ->
  import_line names (Js.join "," vs) = Returns (record_of names vs).
Proof.
  intros Hne Hq Hlen. unfold import_line.
  rewrite splitCSVLine_plain by done.
  rewrite (fill_stringified names vs 0 ∅ Hlen [] eq_refl). simpl.
  f_equal. unfold Obj.spread. apply (right_id_L ∅ (∪)).
Qed.

Lemma split_at_plain v rest cur :
  plain v = true ->
  Js.split_at Js.comma cur (v +:+ rest) = Js.split_at Js.comma (cur +:+ v) rest.
Proof.
  revert cur. induction v as [|c v IH]; intros cur.
  - intros _. by rewrite append_nil, append_empty_r.
  - cbn [plain]. intros [Hc Hv]%andb_true_iff.
    unfold plain_char in Hc.
    apply andb_true_iff in Hc as [[[_ Hcm]%andb_true_iff _]%andb_true_iff _].
    apply negb_true_iff in Hcm.
    rewrite append_cons. simpl Js.split_at. rewrite Hcm.
    rewrite IH by done. unfold Js.push. by rewrite append_assoc.
Qed.

Lemma split_at_comma cur rest :
  Js.split_at Js.comma cur (String Js.comma rest) = cur :: Js.split_at Js.comma "" rest.
Proof. reflexivity. Qed.

Lemma split_comma_plain names :
  names <> [] -> Forall (fun v => plain v = true) names ->
  Js.split_comma (Js.join "," names) = names.
Proof.
  intros Hne Hq. unfold Js.split_comma.
  induction Hq as [|v vs Hv Hvs IH]; [done|].
  destruct vs as [|v2 vs].
  - change (Js.join "," [v]) with v.
    rewrite <- (append_empty_r v) at 1. by rewrite split_at_plain.
  - rewrite join_cons, split_at_plain by done.
    change ("," +:+ ?r) with (String Js.comma r).
    by rewrite split_at_comma, (IH ltac:(done)).
Qed.

Lemma remove_quotes_quote_free v : quote_free v = true -> Js.remove_quotes v = v.
Proof.
  induction v as [|c v IH]; [done|]. simpl.
  intros [Hc Hv]%andb_true_iff. apply negb_true_iff in Hc. by rewrite Hc, IH.
Qed.

Lemma header_of_plain names :
  names <> [] -> Forall (fun v => plain v = true) names ->
  header_of (Js.join "," names) = names.
Proof.
  intros Hne Hq. unfold header_of. rewrite split_comma_plain by done.
  induction Hq as [|v vs Hv _ IH]; [done|]. simpl.
  rewrite remove_quotes_quote_free by by apply plain_quote_free.
  f_equal. destruct vs; [done|]. by apply IH.
Qed.

Lemma join_plain_one_line vs :
  Forall (fun v => plain v = true) vs -> one_line (Js.join "," vs) = true.
Proof.
  intros Hq. apply join_one_line; [done|].
  eapply Forall_impl; [exact Hq|]. apply plain_one_line.
Qed.

Lemma record_of_lookup names vs i h v :
  NoDup names -> names !! i = Some h -> vs !! i = Some v -> h <> "__proto__" ->
  record_of names vs !! h = Some (VStr v).
Proof.
  unfold record_of. generalize (∅ : obj) as o.
  intros o Hnd. revert o vs i.
  induction Hnd as [|n names Hn Hnd IH]; intros o vs i Hi Hv Hne; [done|].
  destruct vs as [|w vs]; [done|]. simpl.
  destruct i as [|i]; simpl in *.
  - injection Hi as ->. injection Hv as ->.
    assert (forall (l : list (string * string)) (o' : obj),
              Forall (fun hv => hv.1 <> h) l -> o' !! h = Some (VStr v) ->
              foldl (fun o hv => Obj.assign o hv.1 (VStr hv.2)) o' l !! h = Some (VStr v))
      as Hkeep.
    { induction l as [|[a b] l IHl]; intros o' Hl Ho'; [done|]. simpl.
      apply Forall_cons in Hl as [Ha Hl]. apply IHl; [done|].
      unfold Obj.assign. case_decide; [done|]. by rewrite lookup_insert_ne. }
    apply Hkeep; [|by apply assign_lookup_eq].
    apply Forall_forall. intros [a b] Hab Heq. simpl in Heq. subst a.
    apply Hn. apply elem_of_zip_l in Hab. done.
  - by eapply IH.
Qed.

(** A file written without quoting (fields with no double quote, comma,
    backslash or control character), each row with as many fields as the
    header has names: the import puts one record per row in front of the
    collection, in the order of the rows, and with distinct names every
    field is there under the name of its column. *)
Theorem import_plain_csv (names : list string) (rows : list (list string)) (st : State) :
  Forall (fun n => plain n = true) names ->
  Js.nonempty (Js.join "," names) = true ->
  rows <> [] ->
  Forall (fun r => Forall (fun v => plain v = true) r
                   /\ length r = length names
                   /\ Js.nonempty (Js.join "," r) = true) rows ->
  importCSV (Js.join (String Js.LF "") (Js.join "," names :: map (Js.join ",") rows)) st
  = Returns (with_tasks (map (record_of names) rows ++ tasks st) st)
  /\ (NoDup names ->
      forall r i h v, r ∈ rows -> names !! i = Some h -> r !! i = Some v ->
                      h <> "__proto__" -> record_of names r !! h = Some (VStr v)).
Proof.
  intros Hnames Hhead Hrows Hall. split.
  2:{ intros Hnd r i h v _. by apply record_of_lookup. }
  assert (names <> []) as Hne by (by destruct names).
  unfold importCSV, lines_of.
  rewrite split_newlines_join.
  2:{ constructor; [by apply join_plain_one_line|].
      apply Forall_fmap. eapply Forall_impl; [exact Hall|].
      intros r (Hr & _ & _). by apply join_plain_one_line. }
  rewrite append_nil, filter_nonempty_all.
  2:{ constructor; [done|]. apply Forall_fmap.
      eapply Forall_impl; [exact Hall|]. by intros r (_ & _ & Hr). }
  destruct rows as [|r0 rows]; [done|].
  change (length (_ :: map _ (r0 :: rows)) <? 2)%nat with false. cbv iota.
  change (hd "" (?x :: _)) with x. change (tl (?x :: ?l)) with l.
  rewrite header_of_plain by done.
  assert (traverse (import_line names) (map (Js.join ",") (r0 :: rows))
          = Returns (map (record_of names) (r0 :: rows))) as ->.
  { clear Hrows. induction Hall as [|r rs (Hr & Hlen & Hnon) _ IH]; [done|].
    simpl. rewrite import_line_plain; [|by destruct r|done|done].
    simpl. by rewrite IH. }
  reflexivity.
Qed.

Lemma import_plain_csv_witness :
  importCSV (Js.join (String Js.LF "")
               (Js.join "," ["id"; "title"] :: map (Js.join ",") [["7"; "Wash truck 12"]]))
            (Run.at_rest [Run.truck])
  = Returns (with_tasks (map (record_of ["id"; "title"]) [["7"; "Wash truck 12"]]
                         ++ tasks (Run.at_rest [Run.truck]))
                        (Run.at_rest [Run.truck])).
Proof.
  apply (import_plain_csv ["id"; "title"] [["7"; "Wash truck 12"]] (Run.at_rest [Run.truck])).
  - repeat constructor.
  - reflexivity.
  - discriminate.
  - repeat constructor.
Defined.

(** *** What an import adds *)

Lemma traverse_Forall2 {A B : Type} (f : A -> outcome B) l ys :
  traverse f l = Returns ys -> Forall2 (fun x y => f x = Returns y) l ys.
Proof.
  revert ys. induction l as [|x l IH]; intros ys; simpl.
  { intros [= <-]. constructor. }
  destruct (f x) as [y| |] eqn:Hy; simpl; [|done..].
  destruct (traverse f l) as [ys'| |]; simpl; [|done..].
  intros [= <-]. constructor; [done|]. by apply IH.
Qed.

(** With a data row, an import that goes through adds one record for
    every data row, in front of the records that are there and in the
    order of the rows; it reads nothing of the state: on any other state
    the same text adds the same records, so a file imported twice is
    there twice. *)
Theorem import_adds_one_record_per_row (text : string) (st st' : State) :
  data_rows text <> [] ->
  importCSV text st = Returns st' ->
  exists drafts,
    st' = with_tasks (drafts ++ tasks st) st
    /\ Forall2 (fun ln d => import_line (header_of (hd "" (lines_of text))) ln = Returns d)
               (data_rows text) drafts
    /\ forall st2, importCSV text st2 = Returns (with_tasks (drafts ++ tasks st2) st2).
Proof.
  unfold importCSV, data_rows.
  destruct (lines_of text) as [|l0 [|l1 ls]]; [done..|]. intros _.
  change (length (l0 :: l1 :: ls) <? 2)%nat with false. cbv iota.
  change (hd "" (l0 :: l1 :: ls)) with l0.
  change (tl (l0 :: l1 :: ls)) with (l1 :: ls).
  destruct (traverse (import_line (header_of l0)) (l1 :: ls)) as [drafts| |] eqn:Ht;
    simpl; [|done..].
  intros [= <-]. exists drafts. split; [done|]. split; [|done].
  by apply traverse_Forall2.
Qed.

Lemma import_adds_one_record_per_row_witness :
  exists drafts,
    Run.at_rest [Run.brakes; Run.brakes]
    = with_tasks (drafts ++ tasks (Run.at_rest [Run.brakes])) (Run.at_rest [Run.brakes])
    /\ Forall2 (fun ln d =>
                  import_line (header_of (hd "" (lines_of (exportCSV [Run.brakes])))) ln
                  = Returns d)
               (data_rows (exportCSV [Run.brakes])) drafts
    /\ forall st2,
         importCSV (exportCSV [Run.brakes]) st2 = Returns (with_tasks (drafts ++ tasks st2) st2).
Proof.
  apply (import_adds_one_record_per_row (exportCSV [Run.brakes]) (Run.at_rest [Run.brakes])
           (Run.at_rest [Run.brakes; Run.brakes])).
  - discriminate.
  - reflexivity.
Defined.

Lemma fill_keys hs i parts o o' k :
  fill hs i parts o = Returns o' -> k ∉ hs -> o' !! k = o !! k.
Proof.
  revert i o. induction hs as [|h hs IH]; intros i o; simpl.
  { by intros [= <-]. }
  destruct (JSON.parse (part_or_empty parts i)) as [v| |]; simpl; [|done..].
  intros Hfill Hk. apply not_elem_of_cons in Hk as [Hkh Hk].
  rewrite (IH _ _ Hfill Hk). unfold Obj.assign. case_decide; [done|].
  by rewrite lookup_insert_ne.
Qed.

Lemma import_line_keys hdr ln d k :
  import_line hdr ln = Returns d -> k ∉ hdr -> d !! k = None.
Proof.
  unfold import_line.
  destruct (fill hdr 0 (splitCSVLine ln) ∅) as [o| |] eqn:Hfill; simpl; [|done..].
  intros [= <-] Hk. unfold Obj.spread. rewrite (right_id_L ∅ (∪)).
  by rewrite (fill_keys _ _ _ _ _ _ Hfill Hk).
Qed.

(** A file whose header has no column named title leaves records without
    a title in the collection, and from then on every search with a text
    that is not blank throws a TypeError, whatever the filters and the
    sort. *)
Theorem import_without_title_breaks_search (text : string) (st st' : State)
    (q fs fp sortBy : string) :
  data_rows text <> [] ->
  "title" ∉ header_of (hd "" (lines_of text)) ->
  importCSV text st = Returns st' ->
  blank q = false ->
  visibleTasks (tasks st') q fs fp sortBy = Throws TypeError.
Proof.
  intros Hrows Htitle Himp Hq.
  assert (existsb untitled (tasks st') = true) as Hex.
  { revert Himp. unfold importCSV. unfold data_rows in Hrows.
    destruct (lines_of text) as [|l0 [|l1 ls]]; [done..|].
    change (length (l0 :: l1 :: ls) <? 2)%nat with false. cbv iota.
    change (hd "" (l0 :: l1 :: ls)) with l0 in *.
    change (tl (l0 :: l1 :: ls)) with (l1 :: ls).
    destruct (traverse (import_line (header_of l0)) (l1 :: ls)) as [drafts| |] eqn:Ht;
      simpl; [|done..].
    intros [= <-]. simpl.
    apply traverse_Forall2 in Ht.
    apply Forall2_cons_inv_l in Ht as (d & ds & Hd & _ & ->). simpl.
    unfold untitled at 1, Obj.get.
    by rewrite (import_line_keys _ _ _ "title" Hd Htitle). }
  unfold visibleTasks. rewrite filtered_closed_form, Hq, Hex. done.
Qed.

Lemma import_without_title_breaks_search_witness :
  visibleTasks
    [<["id" := VStr "7"]> (<["assignee" := VStr "Rami"]> ∅); Run.truck]
    "rami" "All" "All" "dueDate"
  = Throws TypeError.
Proof.
  refine (import_without_title_breaks_search
            ("id,assignee" +:+ String Js.LF "7,Rami") (Run.at_rest [Run.truck])
            (Run.at_rest [<["id" := VStr "7"]> (<["assignee" := VStr "Rami"]> ∅); Run.truck])
            "rami" "All" "All" "dueDate" _ _ eq_refl eq_refl).
  - discriminate.
  - change (header_of _) with ["id"; "assignee"].
    intros H. apply elem_of_cons in H as [H|H]; [discriminate H|].
    apply elem_of_cons in H as [H|H]; [discriminate H|].
    by apply elem_of_nil in H.
Defined.

(** Export writes the header line and then one line for every task,
    whatever the values hold: a line break inside a value is written as
    an escape.  So the export of no task has no data row, and importing
    it only shows the alert. *)
Theorem export_one_row_per_task (ts : list obj) (st : State) :
  lines_of (exportCSV ts) = Js.join "," header :: map export_row ts
  /\ length (data_rows (exportCSV ts)) = length ts
  /\ Forall (fun row => one_line row = true) (data_rows (exportCSV ts))
  /\ importCSV (exportCSV []) st = Returns (alert "No data found" st).
Proof.
  unfold data_rows. rewrite lines_of_exportCSV. simpl.
  split; [done|]. split; [by rewrite length_map|]. split; [|done].
  apply Forall_fmap. apply Forall_forall. intros t _. apply export_row_one_line.
Qed.

(* ================================================================== *)
(** * The assignee buttons after a change of the collection *)

Lemma collect_fold_assignees (acc : list string) (l1 l2 : list obj) :
  map (fun t => Obj.get t "assignee") l1 = map (fun t => Obj.get t "assignee") l2 ->
  foldl collect_step acc l1 = foldl collect_step acc l2.
Proof.
  revert acc l2. induction l1 as [|t1 l1 IH]; intros acc [|t2 l2] Heq;
    simplify_eq/=; [done|].
  rewrite H. by apply IH.
Qed.

Lemma toggle_matching_assignees now_at id s n :
  map (fun t => Obj.get t "assignee") (toggle_matching now_at id s n).1
  = map (fun t => Obj.get t "assignee") s.
Proof.
  revert n. induction s as [|t s IH]; intros n; simpl; [done|].
  case_decide.
  - specialize (IH (S n)). destruct (toggle_matching now_at id s (S n)). simpl in *.
    rewrite IH. f_equal. unfold Obj.get. by rewrite !lookup_insert_ne.
  - specialize (IH n). destruct (toggle_matching now_at id s n). simpl in *.
    by rewrite IH.
Qed.

(** The buttons follow the collection.  Toggle Done leaves them as they
    are, names and order; a delete adds no name. *)
Theorem assignee_buttons_after_toggle_and_delete (now_at : nat -> string) (id : value)
    (confirmed : bool) (st : State) :
  collectAssignees (tasks (toggleDone now_at id st)) = collectAssignees (tasks st)
  /\ forall a, a ∈ collectAssignees (tasks (removeTask confirmed id st)) ->
               a ∈ collectAssignees (tasks st).
Proof.
  split.
  - unfold collectAssignees. apply collect_fold_assignees.
    rewrite toggleDone_tasks. apply toggle_matching_assignees.
  - intros a Ha.
    apply (proj2 (collect_fold [] _ NoDup_nil_2)) in Ha as [Ha|(Hne & t & Ht & Hta)];
      [by apply elem_of_nil in Ha|].
    apply (proj2 (collect_fold [] _ NoDup_nil_2)). right. split; [done|].
    exists t. split; [|done].
    unfold removeTask in Ht. destruct confirmed; simpl in Ht; [|done].
    rewrite list_elem_of_In in Ht. apply List.filter_In in Ht as [Ht _].
    by rewrite list_elem_of_In.
Qed.
